(** * A shallow embedding of the Alpha Vantage stock market client

    Source: [clients/alpha_vantage/client.py] (class [StockMarketClient]
    and the exception classes above it).

    The client is sequential Python code whose only effects are calls of
    [requests.get], calls of the module logger and raised exceptions.  The
    embedding makes the three explicit:

    - a [world] holds the transport (what the [n]-th call of
      [requests.get] answers), the list of requests issued so far and the
      list of log records emitted so far;
    - a computation is a function [world -> result A * world]: an
      exception leaves the requests and log records made before it in
      place, as in Python;
    - Python values of the kinds the client handles (what [json.loads]
      produces, and what a caller may pass for an argument) are the type
      [pyval]. *)

From Stdlib Require Import ZArith List String Ascii Bool Lia.
From Stdlib Require Import Floats.SpecFloat.
Import ListNotations.

Local Open Scope string_scope.
Local Open Scope list_scope.

(** ** Python values *)

(** [str] values are modelled by [string]: sequences of 8-bit characters
    read as the code points 0..255 (U+0000 to U+00FF).  On these the
    whitespace table and the case mappings below are CPython's, with one
    exception, stated at [upper_exact]: the upper-case forms of U+00B5
    and U+00FF are not among the 256 characters.  A
    [dict] is an association list in insertion order whose keys are
    strings (JSON object keys, and the keys of the parameter dicts the
    client builds); [dict_set] keeps keys unique. *)
#[warnings="-register-all"]
Inductive pyval : Type :=
| PNone
| PBool (b : bool)
| PInt (n : Z)
| PFloat (x : spec_float)
| PStr (s : string)
| PList (xs : list pyval)
| PDict (kvs : list (string * pyval)).

Definition dict : Type := list (string * pyval).

(** [bool(v)]: what [not v] and [if v] test. *)
Definition truthy (v : pyval) : bool :=
  match v with
  | PNone => false
  | PBool b => b
  | PInt n => negb (n =? 0)%Z
  | PFloat (S754_zero _) => false
  | PFloat _ => true
  | PStr s => negb (s =? "")
  | PList [] => false
  | PList (_ :: _) => true
  | PDict [] => false
  | PDict (_ :: _) => true
  end.

(** [isinstance(v, str)] *)
Definition isinstance_str (v : pyval) : bool :=
  match v with PStr _ => true | _ => false end.

(** [v == s] for a string literal [s]: only a [str] equals a [str]. *)
Definition eq_str (v : pyval) (s : string) : bool :=
  match v with PStr t => t =? s | _ => false end.

(** [v in [s1, s2, ...]] for a list of string literals. *)
Definition in_strs (v : pyval) (l : list string) : bool :=
  existsb (eq_str v) l.

(** *** Strings *)

(** [needle in hay] for two [str]: substring test. *)
Fixpoint contains_substring (needle hay : string) : bool :=
  prefix needle hay ||
  match hay with
  | EmptyString => false
  | String _ hay' => contains_substring needle hay'
  end.

(** The rows U+0000 to U+00FF of CPython's whitespace table
    ([str.isspace], [str.strip]): TAB, LF, VT, FF, CR, FS, GS, RS, US,
    SPACE, NEL (U+0085) and NO-BREAK SPACE (U+00A0). *)
Definition is_space (c : ascii) : bool :=
  let n := nat_of_ascii c in
  ((9 <=? n) && (n <=? 13) || (28 <=? n) && (n <=? 32)
   || (n =? 133) || (n =? 160))%nat.

(** The lower-case letters whose upper-case form is the character 32
    places before: a to z, U+00E0 to U+00F6 and U+00F8 to U+00FE. *)
Definition is_lower (c : ascii) : bool :=
  let n := nat_of_ascii c in
  ((97 <=? n) && (n <=? 122) || (224 <=? n) && (n <=? 246)
   || (248 <=? n) && (n <=? 254))%nat.

(** The upper-case form of one character: a string, since that of
    U+00DF (sharp s) is ["SS"].  Every other character is left as it is;
    among them are the two of [upper_exact]. *)
Definition upper_char (c : ascii) : string :=
  if is_lower c then String (ascii_of_nat (nat_of_ascii c - 32)) EmptyString
  else if (nat_of_ascii c =? 223)%nat then "SS"
  else String c EmptyString.

(** [s.upper()] *)
Fixpoint upper (s : string) : string :=
  match s with
  | EmptyString => EmptyString
  | String c s' => (upper_char c ++ upper s')%string
  end.


Fixpoint lstrip (s : string) : string :=
  match s with
  | EmptyString => EmptyString
  | String c s' => if is_space c then lstrip s' else s
  end.

Fixpoint rstrip (s : string) : string :=
  match s with
  | EmptyString => EmptyString
  | String c s' =>
      match rstrip s' with
      | EmptyString => if is_space c then EmptyString else String c EmptyString
      | r => String c r
      end
  end.

(** [s.strip()] *)
Definition strip (s : string) : string := rstrip (lstrip s).

(** *** Dicts *)

Fixpoint dict_lookup (d : dict) (k : string) : option pyval :=
  match d with
  | [] => None
  | (k', v) :: d' => if k' =? k then Some v else dict_lookup d' k
  end.

(** [d[k] = v] *)
Fixpoint dict_set (d : dict) (k : string) (v : pyval) : dict :=
  match d with
  | [] => [(k, v)]
  | (k', v') :: d' =>
      if k' =? k then (k, v) :: d' else (k', v') :: dict_set d' k v
  end.

Definition dict_mem (d : dict) (k : string) : bool :=
  match dict_lookup d k with Some _ => true | None => false end.

Definition dict_keys (d : dict) : list string := map fst d.

(** ** Exceptions *)

(** The six classes of the client, the built-in classes its code can
    raise on values of the wrong type, and those the JSON parser raises
    apart from its decode error. *)
Inductive exn_class : Type :=
| Exception
| LookupError
| KeyError
| TypeError
| AttributeError
| ValueError
| RuntimeError
| RecursionError
| AlphaVantageError
| InvalidArgsError
| APIError
| RateLimitError
| ConnectionError
| DataNotFoundError.

(** The base class named in each [class] statement. *)
Definition base (c : exn_class) : option exn_class :=
  match c with
  | Exception => None
  | LookupError => Some Exception
  | KeyError => Some LookupError
  | TypeError => Some Exception
  | AttributeError => Some Exception
  | ValueError => Some Exception
  | RuntimeError => Some Exception
  | RecursionError => Some RuntimeError
  | AlphaVantageError => Some Exception
  | InvalidArgsError => Some AlphaVantageError
  | APIError => Some AlphaVantageError
  | RateLimitError => Some APIError
  | ConnectionError => Some APIError
  | DataNotFoundError => Some AlphaVantageError
  end.

(** [subclass c d]: [d] is [c] or one of its ancestors. *)
Inductive subclass : exn_class -> exn_class -> Prop :=
| subclass_refl c : subclass c c
| subclass_step c b d : base c = Some b -> subclass b d -> subclass c d.

Definition exn_class_eqb (c d : exn_class) : bool :=
  match c, d with
  | Exception, Exception | LookupError, LookupError | KeyError, KeyError
  | TypeError, TypeError | AttributeError, AttributeError
  | ValueError, ValueError | RuntimeError, RuntimeError
  | RecursionError, RecursionError
  | AlphaVantageError, AlphaVantageError
  | InvalidArgsError, InvalidArgsError | APIError, APIError
  | RateLimitError, RateLimitError | ConnectionError, ConnectionError
  | DataNotFoundError, DataNotFoundError => true
  | _, _ => false
  end.

Fixpoint ancestors (fuel : nat) (c : exn_class) : list exn_class :=
  c :: match fuel, base c with
       | S fuel', Some b => ancestors fuel' b
       | _, _ => []
       end.

(** [issubclass(c, d)]; no class has more than three ancestors. *)
Definition issubclass (c d : exn_class) : bool :=
  existsb (exn_class_eqb d) (ancestors 3 c).

(** A piece of an f-string: literal text, or a formatted value. *)
Inductive fragment : Type :=
| Lit (s : string)
| Fmt (v : pyval).

Definition text : Type := list fragment.

(** A raised exception: its class and the message it was built with.
    Exceptions raised by the interpreter itself carry no message here. *)
Record exn : Type := mk_exn { exn_cls : exn_class; exn_msg : text }.

(** [isinstance(e, d)] *)
Definition isinstance (e : exn) (d : exn_class) : bool :=
  issubclass (exn_cls e) d.

(** ** The world: transport, requests issued, log records *)

Record request : Type :=
  mk_request { req_url : string; req_params : dict; req_timeout : Z }.

(** What [response.json()] does.  It returns the parsed value; or the
    body is not JSON and it raises [requests.exceptions.JSONDecodeError],
    a subclass of [RequestException] (since requests 2.27) and neither of
    [Timeout] nor of [ConnectionError]; or the parser fails in another
    way, which [requests] lets through as it is: [ValueError] for an
    integer of more digits than the interpreter converts,
    [RecursionError] for a nesting deeper than its stack. *)
Inductive parsed : Type :=
| Parsed (v : pyval)
| NotJSON (e : string)
| ParserRaises (e : exn).

(** A response: what [response.raise_for_status()] does, which raises
    [HTTPError], a subclass of [RequestException], on a 4xx or 5xx
    status; and what [response.json()] does. *)
Record response : Type :=
  mk_response { http_error : option string; json : parsed }.

(** What one call of [requests.get] does, by the [except] clause of
    [_make_request] that handles it.  [ConnectTimeout] inherits from both
    [ConnectionError] and [Timeout]; the [Timeout] clause comes first, so
    it is a [RaisesTimeout]. *)
Inductive http_outcome : Type :=
| RaisesTimeout (e : string)
| RaisesConnectionError (e : string)
| RaisesRequestException (e : string)
| Responds (r : response).

Inductive level : Type := DEBUG | INFO | WARNING | ERROR.

Record world : Type :=
  mk_world {
      net : nat -> request -> http_outcome;
      http_calls : list request;
      log_records : list (level * text)
    }.

(** ** Computations *)

Inductive result (A : Type) : Type :=
| Ok (a : A)
| Raise (e : exn).
Arguments Ok {A} a.
Arguments Raise {A} e.

Definition M (A : Type) : Type := world -> result A * world.

Definition ret {A} (a : A) : M A := fun w => (Ok a, w).

Definition raise {A} (c : exn_class) (msg : text) : M A :=
  fun w => (Raise (mk_exn c msg), w).

Definition reraise {A} (e : exn) : M A := fun w => (Raise e, w).

Definition bind {A B} (m : M A) (k : A -> M B) : M B :=
  fun w =>
    match m w with
    | (Ok a, w') => k a w'
    | (Raise e, w') => (Raise e, w')
    end.

Notation "x <- m ;; k" := (bind m (fun x => k))
  (at level 61, m at next level, right associativity).
Notation "m ;; k" := (bind m (fun _ => k))
  (at level 61, right associativity).

(** [try: body except Exception as e: handler(e)]: every class of
    [exn_class] derives from [Exception], so the clause handles all. *)
Definition try_except {A} (body : M A) (handler : exn -> M A) : M A :=
  fun w =>
    match body w with
    | (Ok a, w') => (Ok a, w')
    | (Raise e, w') => handler e w'
    end.

(** [logger.<level>(msg)] *)
Definition log (l : level) (msg : text) : M unit :=
  fun w =>
    (Ok tt, mk_world (net w) (http_calls w) (log_records w ++ [(l, msg)])).

(** [requests.get(url, params=params, timeout=timeout)], with the
    exception or response it produces returned as a value. *)
Definition requests_get (url : string) (params : dict) (timeout : Z)
  : M http_outcome :=
  fun w =>
    let r := mk_request url params timeout in
    (Ok (net w (List.length (http_calls w)) r),
     mk_world (net w) (http_calls w ++ [r]) (log_records w)).

(** ** Operations of the interpreter on values

    Each raises what CPython raises when the value has no such
    operation. *)

(** [needle in v], for a [str] needle: key of a dict, element of a list,
    substring of a str. *)
Definition py_in (needle : string) (v : pyval) : M bool :=
  match v with
  | PDict d => ret (dict_mem d needle)
  | PList xs => ret (existsb (fun x => eq_str x needle) xs)
  | PStr s => ret (contains_substring needle s)
  | _ => raise TypeError []
  end.

(** [v[k]], for a [str] subscript. *)
Definition py_getitem (v : pyval) (k : string) : M pyval :=
  match v with
  | PDict d =>
      match dict_lookup d k with
      | Some x => ret x
      | None => raise KeyError [Fmt (PStr k)]
      end
  | _ => raise TypeError []
  end.

(** [v.get(k, default)] *)
Definition py_get (v : pyval) (k : string) (default : pyval) : M pyval :=
  match v with
  | PDict d =>
      ret (match dict_lookup d k with Some x => x | None => default end)
  | _ => raise AttributeError []
  end.

(** [v.keys()] *)
Definition py_keys (v : pyval) : M (list string) :=
  match v with
  | PDict d => ret (dict_keys d)
  | _ => raise AttributeError []
  end.

(** [len(v)] *)
Definition py_len (v : pyval) : M Z :=
  match v with
  | PDict d => ret (Z.of_nat (List.length d))
  | PList xs => ret (Z.of_nat (List.length xs))
  | PStr s => ret (Z.of_nat (String.length s))
  | _ => raise TypeError []
  end.

(** [v.upper()] and [v.strip()] *)
Definition py_upper (v : pyval) : M pyval :=
  match v with
  | PStr s => ret (PStr (upper s))
  | _ => raise AttributeError []
  end.

Definition py_strip (v : pyval) : M pyval :=
  match v with
  | PStr s => ret (PStr (strip s))
  | _ => raise AttributeError []
  end.

(** ** The client *)

Record StockMarketClient : Type :=
  mk_client {
      api_key : string;
      base_url : string;
      timeout : Z;
      max_retries : Z
    }.

(** [x or d], for an [Optional[str]] and an [Optional[int]]: [None], the
    empty string and zero are false. *)
Definition or_str (x : option string) (d : string) : string :=
  match x with
  | Some s => if s =? "" then d else s
  | None => d
  end.

Definition or_int (x : option Z) (d : Z) : Z :=
  match x with
  | Some n => if (n =? 0)%Z then d else n
  | None => d
  end.

(** [StockMarketClient(api_key, base_url, timeout, max_retries)]; an
    omitted argument is [None]. *)
Definition __init__ (api_key base_url : option string)
  (timeout max_retries : option Z) : M StockMarketClient :=
  match api_key with
  | None => raise InvalidArgsError [Lit "missing api key"]
  | Some key =>
      if key =? "" then
        raise InvalidArgsError [Lit "missing api key"]
      else
        let self :=
          mk_client key
                    (or_str base_url "https://www.alphavantage.co/query")
                    (or_int timeout 30)
                    (or_int max_retries 3) in
        log INFO [Lit "StockMarketClient initialized successfully"] ;;
        ret self
  end.

(** The body of the [try] of [_make_request] once [response.json()] has
    returned [data]. *)
Definition inspect (data : pyval) : M pyval :=
  has_error <- py_in "Error Message" data ;;
  if has_error then
    error_msg <- py_getitem data "Error Message" ;;
    log ERROR [Lit "API Error: "; Fmt error_msg] ;;
    raise APIError [Lit "Alpha Vantage API Error: "; Fmt error_msg]
  else
    has_note <- py_in "Note" data ;;
    if has_note then
      note <- py_getitem data "Note" ;;
      log WARNING [Lit "API Rate Limit: "; Fmt note] ;;
      raise RateLimitError [Lit "Alpha Vantage Rate Limit: "; Fmt note]
    else
      ret data.

(** The clause [except requests.exceptions.RequestException as e]. *)
Definition on_request_exception (e : string) : M pyval :=
  log ERROR [Lit "Request error: "; Lit e] ;;
  raise APIError [Lit "Request failed: "; Lit e].

(** [for attempt in range(self.max_retries): ...] followed by the
    statement after the loop: [todo] iterations remain, and [attempt] is
    the value of the loop variable in the next one. *)
Fixpoint retry_loop (self : StockMarketClient) (params : dict)
  (todo : nat) (attempt : Z) : M pyval :=
  match todo with
  | O => raise APIError [Lit "Request failed after all retries"]
  | S todo' =>
      log DEBUG [Lit "Making API request: ";
                 Fmt (match dict_lookup params "function" with
                      | Some f => f
                      | None => PStr "unknown"
                      end)] ;;
      o <- requests_get (base_url self) params (timeout self) ;;
      match o with
      | RaisesTimeout _ =>
          log WARNING [Lit "Request timeout (attempt ";
                       Fmt (PInt (attempt + 1)); Lit "/";
                       Fmt (PInt (max_retries self)); Lit ")"] ;;
          if (attempt =? max_retries self - 1)%Z then
            raise ConnectionError [Lit "Request timeout after all retries"]
          else
            retry_loop self params todo' (attempt + 1)%Z
      | RaisesConnectionError e =>
          log ERROR [Lit "Connection error: "; Lit e] ;;
          raise ConnectionError
                [Lit "Failed to connect to Alpha Vantage API: "; Lit e]
      | RaisesRequestException e => on_request_exception e
      | Responds r =>
          match http_error r with
          | Some e => on_request_exception e
          | None =>
              match json r with
              | Parsed data => inspect data
              | NotJSON e => on_request_exception e
              | ParserRaises e => reraise e
              end
          end
      end
  end.

(** [params['apikey'] = ...] writes into the caller's dict; no caller
    reads its dict again, so the updated dict is a local value here.
    [range(n)] runs [max(n, 0)] times. *)
Definition _make_request (self : StockMarketClient) (params : dict)
  : M pyval :=
  let params := dict_set params "apikey" (PStr (api_key self)) in
  retry_loop self params (Z.to_nat (max_retries self)) 0%Z.

(** [not symbol or not isinstance(symbol, str)] *)
Definition not_nonempty_str (v : pyval) : bool :=
  negb (truthy v) || negb (isinstance_str v).

Definition get_quote (self : StockMarketClient) (symbol : pyval)
  : M pyval :=
  if not_nonempty_str symbol then
    raise InvalidArgsError [Lit "Symbol must be a non-empty string"]
  else
    symbol <- py_upper symbol ;;
    symbol <- py_strip symbol ;;
    log INFO [Lit "Fetching quote for symbol: "; Fmt symbol] ;;
    let params := [("function", PStr "GLOBAL_QUOTE"); ("symbol", symbol)] in
    try_except
      (data <- _make_request self params ;;
       quote_data <- py_get data "Global Quote" (PDict []) ;;
       if negb (truthy quote_data) then
         log WARNING [Lit "No quote data found for symbol: "; Fmt symbol] ;;
         ret (PDict [])
       else
         log INFO [Lit "Successfully fetched quote for "; Fmt symbol] ;;
         ret quote_data)
      (fun e =>
         log ERROR ([Lit "Failed to fetch quote for "; Fmt symbol; Lit ": "]
                      ++ exn_msg e) ;;
         reraise e).

Definition outputsizes : list string := ["compact"; "full"].

(** [outputsize] defaults to ['compact']. *)
Definition get_daily_data (self : StockMarketClient)
  (symbol outputsize : pyval) : M pyval :=
  if not_nonempty_str symbol then
    raise InvalidArgsError [Lit "Symbol must be a non-empty string"]
  else if negb (in_strs outputsize outputsizes) then
    raise InvalidArgsError [Lit "Output size must be 'compact' or 'full'"]
  else
    symbol <- py_upper symbol ;;
    symbol <- py_strip symbol ;;
    log INFO [Lit "Fetching daily data for symbol: "; Fmt symbol;
              Lit ", outputsize: "; Fmt outputsize] ;;
    let params := [("function", PStr "TIME_SERIES_DAILY");
                   ("symbol", symbol);
                   ("outputsize", outputsize)] in
    try_except
      (data <- _make_request self params ;;
       series <- py_get data "Time Series (Daily)" PNone ;;
       if negb (truthy series) then
         log WARNING [Lit "No daily data found for symbol: "; Fmt symbol] ;;
         ret (PDict [])
       else
         log INFO [Lit "Successfully fetched daily data for "; Fmt symbol] ;;
         ret data)
      (fun e =>
         log ERROR ([Lit "Failed to fetch daily data for "; Fmt symbol;
                     Lit ": "] ++ exn_msg e) ;;
         reraise e).

Definition valid_intervals : list string :=
  ["1min"; "5min"; "15min"; "30min"; "60min"].

(** The loop over [data.keys()] that stops at the first key containing
    ['Time Series']; [None] when there is none. *)
Definition find_time_series_key (keys : list string) : option string :=
  find (contains_substring "Time Series") keys.

(** [interval] defaults to ['5min'] and [outputsize] to ['compact']. *)
Definition get_intraday_data (self : StockMarketClient)
  (symbol interval outputsize : pyval) : M pyval :=
  if not_nonempty_str symbol then
    raise InvalidArgsError [Lit "Symbol must be a non-empty string"]
  else if negb (in_strs interval valid_intervals) then
    raise InvalidArgsError [Lit "Interval must be one of: ";
                            Fmt (PList (map PStr valid_intervals))]
  else if negb (in_strs outputsize outputsizes) then
    raise InvalidArgsError [Lit "Output size must be 'compact' or 'full'"]
  else
    symbol <- py_upper symbol ;;
    symbol <- py_strip symbol ;;
    log INFO [Lit "Fetching intraday data for symbol: "; Fmt symbol;
              Lit ", interval: "; Fmt interval] ;;
    let params := [("function", PStr "TIME_SERIES_INTRADAY");
                   ("symbol", symbol);
                   ("interval", interval);
                   ("outputsize", outputsize)] in
    try_except
      (data <- _make_request self params ;;
       keys <- py_keys data ;;
       no_series <-
         match find_time_series_key keys with
         | None => ret true
         | Some key =>
             if key =? "" then ret true
             else series <- py_get data key PNone ;;
                  ret (negb (truthy series))
         end ;;
       if no_series : bool then
         log WARNING [Lit "No intraday data found for symbol: ";
                      Fmt symbol] ;;
         ret (PDict [])
       else
         log INFO [Lit "Successfully fetched intraday data for ";
                   Fmt symbol] ;;
         ret data)
      (fun e =>
         log ERROR ([Lit "Failed to fetch intraday data for "; Fmt symbol;
                     Lit ": "] ++ exn_msg e) ;;
         reraise e).

Definition search_stocks (self : StockMarketClient) (keywords : pyval)
  : M pyval :=
  if not_nonempty_str keywords then
    raise InvalidArgsError [Lit "Keywords must be a non-empty string"]
  else
    keywords <- py_strip keywords ;;
    log INFO [Lit "Searching stocks with keywords: "; Fmt keywords] ;;
    let params := [("function", PStr "SYMBOL_SEARCH");
                   ("keywords", keywords)] in
    try_except
      (data <- _make_request self params ;;
       matches <- py_get data "bestMatches" (PList []) ;;
       n <- py_len matches ;;
       log INFO [Lit "Found "; Fmt (PInt n);
                 Lit " matches for keywords: "; Fmt keywords] ;;
       ret matches)
      (fun e =>
         log ERROR ([Lit "Failed to search stocks with keywords '";
                     Fmt keywords; Lit "': "] ++ exn_msg e) ;;
         reraise e).

Definition get_company_overview (self : StockMarketClient)
  (symbol : pyval) : M pyval :=
  if not_nonempty_str symbol then
    raise InvalidArgsError [Lit "Symbol must be a non-empty string"]
  else
    symbol <- py_upper symbol ;;
    symbol <- py_strip symbol ;;
    log INFO [Lit "Fetching company overview for symbol: "; Fmt symbol] ;;
    let params := [("function", PStr "OVERVIEW"); ("symbol", symbol)] in
    try_except
      (data <- _make_request self params ;;
       no_overview <-
         (if negb (truthy data) then ret true
          else n <- py_len data ;; ret (n <=? 1)%Z) ;;
       if no_overview : bool then
         log WARNING [Lit "No company overview found for symbol: ";
                      Fmt symbol] ;;
         ret (PDict [])
       else
         log INFO [Lit "Successfully fetched company overview for ";
                   Fmt symbol] ;;
         ret data)
      (fun e =>
         log ERROR ([Lit "Failed to fetch company overview for ";
                     Fmt symbol; Lit ": "] ++ exn_msg e) ;;
         reraise e).

Definition get_market_status (self : StockMarketClient) : M pyval :=
  log INFO [Lit "Fetching market status"] ;;
  let params := [("function", PStr "MARKET_STATUS")] in
  try_except
    (data <- _make_request self params ;;
     markets <- py_get data "markets" PNone ;;
     if negb (truthy markets) then
       log WARNING [Lit "No market status data found"] ;;
       ret (PDict [])
     else
       log INFO [Lit "Successfully fetched market status"] ;;
       ret data)
    (fun e =>
       log ERROR ([Lit "Failed to fetch market status: "] ++ exn_msg e) ;;
       reraise e).

Definition get_top_gainers_losers (self : StockMarketClient) : M pyval :=
  log INFO [Lit "Fetching top gainers and losers"] ;;
  let params := [("function", PStr "TOP_GAINERS_LOSERS")] in
  try_except
    (data <- _make_request self params ;;
     gainers <- py_get data "top_gainers" PNone ;;
     no_data <-
       (if negb (truthy gainers) then
          losers <- py_get data "top_losers" PNone ;;
          ret (negb (truthy losers))
        else ret false) ;;
     if no_data : bool then
       log WARNING [Lit "No gainers/losers data found"] ;;
       ret (PDict [])
     else
       log INFO [Lit "Successfully fetched top gainers and losers"] ;;
       ret data)
    (fun e =>
       log ERROR ([Lit "Failed to fetch top gainers/losers: "]
                    ++ exn_msg e) ;;
       reraise e).

(** ** The configuration provider

    Source: [utils/config.py] (class [Config]).  The configuration is a
    dict of YAML values, which are [pyval]s here (with string keys, as
    everywhere in this development).  What the class reads from outside,
    the content of the YAML file and [os.environ], is an argument of the
    function that reads it.  Nothing here touches the [world] of the
    client, so the functions are pure and return an [outcome]. *)

Module Config.

(** The exceptions the code of [Config] can raise. *)
Inductive error : Type :=
| KeyError
| TypeError
| AttributeError
| IndexError
| ConfigurationError (e : string).

Inductive outcome (A : Type) : Type :=
| Returns (a : A)
| Raises (e : error).
Arguments Returns {A} a.
Arguments Raises {A} e.

(** The upper-case letters among U+0000 to U+00FF: A to Z, U+00C0 to
    U+00D6 and U+00D8 to U+00DE.  The lower-case form of each is the
    character 32 places after, and [str.lower] leaves the other
    characters as they are. *)
Definition is_upper (c : ascii) : bool :=
  let n := nat_of_ascii c in
  ((65 <=? n) && (n <=? 90) || (192 <=? n) && (n <=? 214)
   || (216 <=? n) && (n <=? 222))%nat.

Definition lower_char (c : ascii) : ascii :=
  if is_upper c then ascii_of_nat (nat_of_ascii c + 32) else c.

(** [s.lower()] *)
Fixpoint lower (s : string) : string :=
  match s with
  | EmptyString => EmptyString
  | String c s' => String (lower_char c) (lower s')
  end.

(** [s[n:]] *)
Fixpoint drop (n : nat) (s : string) : string :=
  match n, s with
  | O, _ => s
  | S _, EmptyString => EmptyString
  | S n', String _ s' => drop n' s'
  end.

(** [s.split(sep)] for a separator of one character: the pieces between
    the separators, of which there is always at least one. *)
Fixpoint split (sep : ascii) (s : string) : list string :=
  match s with
  | EmptyString => [EmptyString]
  | String c s' =>
      if Ascii.eqb c sep then EmptyString :: split sep s'
      else match split sep s' with
           | [] => [String c EmptyString]
           | piece :: pieces => String c piece :: pieces
           end
  end.

(** [sep.join(pieces)] *)
Fixpoint join (sep : ascii) (pieces : list string) : string :=
  match pieces with
  | [] => EmptyString
  | [piece] => piece
  | piece :: pieces' => (piece ++ String sep (join sep pieces'))%string
  end.

(** The value that one round of the loop of [_deep_merge] stores under
    a key whose current value in [result] is [old] ([None] when the key
    is not in [result]) and whose value in [override] is [value]: the
    merge of the two when both are dicts, [value] otherwise.  The inner
    loop is the loop of the recursive call, over the items of
    [value]. *)
Fixpoint merged (old : option pyval) (value : pyval) {struct value}
  : pyval :=
  match value with
  | PDict override =>
      match old with
      | Some (PDict base) =>
          PDict
            ((fix loop (items result : dict) {struct items} : dict :=
                match items with
                | [] => result
                | (key, value') :: items' =>
                    loop items'
                         (dict_set result key
                                   (merged (dict_lookup result key) value'))
                end) override base)
      | _ => value
      end
  | _ => value
  end.

(** [_deep_merge(base, override)]: [result] starts as a copy of [base]
    and takes the items of [override] in order. *)
Definition _deep_merge (base override : dict) : dict :=
  fold_left
    (fun result item =>
       dict_set result (fst item)
                (merged (dict_lookup result (fst item)) (snd item)))
    override base.

(** [_set_nested_value(d, [key] + path, value)].  The loop walks down
    with [setdefault], which returns the value under [key] or stores and
    returns a new dict; the dicts walked through are updated in place,
    which is the update of [d] under [key] here.  A value that is not a
    dict has no [setdefault] and takes no string subscript. *)
Fixpoint set_path (d : dict) (key : string) (path : list string)
  (value : pyval) {struct path} : outcome dict :=
  match path with
  | [] => Returns (dict_set d key value)
  | key' :: path' =>
      let inner (sub : dict) :=
        match set_path sub key' path' value with
        | Returns sub' => Returns (dict_set d key (PDict sub'))
        | Raises e => Raises e
        end in
      match dict_lookup d key with
      | None => inner []
      | Some (PDict sub) => inner sub
      | Some _ =>
          match path' with
          | [] => Raises TypeError
          | _ :: _ => Raises AttributeError
          end
      end
  end.

(** [_set_nested_value(d, path, value)]; [path[-1]] of an empty path
    raises. *)
Definition _set_nested_value (d : dict) (path : list string)
  (value : pyval) : outcome dict :=
  match path with
  | [] => Raises IndexError
  | key :: path' => set_path d key path' value
  end.

(** [_override_from_env()], for [self._config = config] and
    [os.environ = environ], in the order [os.environ] iterates. *)
Fixpoint _override_from_env (config : dict)
  (environ : list (string * string)) : outcome dict :=
  match environ with
  | [] => Returns config
  | (key, value) :: environ' =>
      if prefix "APP_" key then
        match _set_nested_value config (split "_" (lower (drop 4 key)))
                                (PStr value) with
        | Returns config' => _override_from_env config' environ'
        | Raises e => Raises e
        end
      else _override_from_env config environ'
  end.

(** [value[key]] for a string [key]. *)
Definition subscript (value : pyval) (key : string) : outcome pyval :=
  match value with
  | PDict d =>
      match dict_lookup d key with
      | Some v => Returns v
      | None => Raises KeyError
      end
  | _ => Raises TypeError
  end.

(** The loop of [get]. *)
Fixpoint walk (value : pyval) (keys : list string) : outcome pyval :=
  match keys with
  | [] => Returns value
  | key :: keys' =>
      match subscript value key with
      | Returns v => walk v keys'
      | Raises e => Raises e
      end
  end.

(** [get(path, default)], for [self._config = config]. *)
Definition get (config : dict) (path : string) (default : pyval)
  : outcome pyval :=
  match walk (PDict config) (split "." path) with
  | Returns v => Returns v
  | Raises KeyError => Returns default
  | Raises TypeError => Returns default
  | Raises e => Raises e
  end.

(** [load_config()].  [file] is what the file system and the YAML
    parser give: [None] when the file does not exist, [inl e] when
    opening or parsing it raises (with text [e]), [inr v] when it parses
    to [v].  A parsed value that is not a mapping has no [items]. *)
Definition load_config (file : option (string + pyval))
  (environ : list (string * string)) : outcome dict :=
  match file with
  | None => _override_from_env [] environ
  | Some (inl e) => Raises (ConfigurationError e)
  | Some (inr (PDict env_config)) =>
      _override_from_env (_deep_merge [] env_config) environ
  | Some (inr _) => Raises AttributeError
  end.

(** [c] occurs in [s]. *)
Fixpoint has_char (c : ascii) (s : string) : bool :=
  match s with
  | EmptyString => false
  | String a s' => Ascii.eqb a c || has_char c s'
  end.

(** No piece of [pieces] contains [c]. *)
Definition free_of (c : ascii) (pieces : list string) : Prop :=
  Forall (fun piece => has_char c piece = false) pieces.

(** A sample of what the YAML file holds. *)
Definition sample_file : dict :=
  [("api", PDict [("timeout", PInt 30); ("key", PStr "demo")]);
   ("debug", PBool false)].

End Config.

(** ** Vocabulary of the statements *)

Definition is_timeout (o : http_outcome) : bool :=
  match o with RaisesTimeout _ => true | _ => false end.

(** The request that every attempt of [_make_request self params]
    passes to [requests.get]. *)
Definition request_of (self : StockMarketClient) (params : dict) : request :=
  mk_request (base_url self)
             (dict_set params "apikey" (PStr (api_key self)))
             (timeout self).

(** The next [k] calls of [requests.get] with [req], counted from the
    world [w], all raise [Timeout]. *)
Definition timeouts (w : world) (req : request) (k : nat) : Prop :=
  forall i, (i < k)%nat ->
            is_timeout (net w (List.length (http_calls w) + i) req) = true.

(** The call of [requests.get] that follows [k] further calls from [w]
    answers [o]. *)
Definition answers (w : world) (req : request) (k : nat)
  (o : http_outcome) : Prop :=
  net w (List.length (http_calls w) + k) req = o.

(** [w'] is [w] after the requests [reqs], and any log records. *)
Definition extends (w w' : world) (reqs : list request) : Prop :=
  net w' = net w /\ http_calls w' = http_calls w ++ reqs.

(** A 200 response whose body is the JSON value [v]. *)
Definition ok_response (v : pyval) : http_outcome :=
  Responds (mk_response None (Parsed v)).

(** [v] is a non-empty [str]. *)
Definition nonempty_str (v : pyval) : Prop :=
  exists s, v = PStr s /\ s <> "".

(** [v] is one of the strings of [l]. *)
Definition one_of (v : pyval) (l : list string) : Prop :=
  exists s, v = PStr s /\ In s l.

Definition has_field (d : dict) (k : string) : Prop := In k (dict_keys d).

(** The exceptions the argument checks raise. *)
Definition symbol_error : exn :=
  mk_exn InvalidArgsError [Lit "Symbol must be a non-empty string"].

Definition keywords_error : exn :=
  mk_exn InvalidArgsError [Lit "Keywords must be a non-empty string"].

Definition interval_error : exn :=
  mk_exn InvalidArgsError
         [Lit "Interval must be one of: ";
          Fmt (PList [PStr "1min"; PStr "5min"; PStr "15min"; PStr "30min";
                      PStr "60min"])].

Definition outputsize_error : exn :=
  mk_exn InvalidArgsError [Lit "Output size must be 'compact' or 'full'"].

(** *** Sample inputs *)

Definition demo_client : StockMarketClient :=
  mk_client "demo" "https://www.alphavantage.co/query" 30 3.

Definition quote_params : dict :=
  [("function", PStr "GLOBAL_QUOTE"); ("symbol", PStr "AAPL")].

(** A world in which nothing has happened yet. *)
Definition fresh_world (net : nat -> request -> http_outcome) : world :=
  mk_world net [] [].

(** A transport whose first [k] calls time out and whose later calls all
    do [o]. *)
Definition timeouts_then (k : nat) (o : http_outcome)
  : nat -> request -> http_outcome :=
  fun n _ => if (n <? k)%nat then RaisesTimeout "timed out" else o.

(** Three envelopes: one flagged as an error (and carrying other
    fields), one flagged as rate limited, one a quote. *)
Definition error_envelope : dict :=
  [("Global Quote", PDict []);
   ("Note", PStr "5 calls per minute");
   ("Error Message", PStr "Invalid API call")].

Definition note_envelope : dict := [("Note", PStr "5 calls per minute")].

Definition quote_envelope : dict :=
  [("Global Quote",
    PDict [("01. symbol", PStr "AAPL"); ("05. price", PStr "150.00")])].

(** A 200 response whose body is not JSON: [response.json()] raises
    [JSONDecodeError] with the text [e]. *)
Definition bad_json_response (e : string) : http_outcome :=
  Responds (mk_response None (NotJSON e)).

(** A 200 response on whose body the parser fails otherwise than with
    a decode error: [response.json()] raises [e]. *)
Definition parser_failure_response (e : exn) : http_outcome :=
  Responds (mk_response None (ParserRaises e)).

(** Running [m] from [w] issues exactly the requests [reqs]. *)
Definition runs {A} (m : M A) (w : world) (reqs : list request) : Prop :=
  exists r w', m w = (r, w') /\ extends w w' reqs.

(** [m] issues no request, from any world. *)
Definition quiet {A} (m : M A) : Prop := forall w, runs m w [].

(** The parameters an operation on a symbol builds: the function name,
    the symbol as [symbol.upper().strip()] leaves it, and the other
    parameters of the operation. *)
Definition symbol_params (function s : string) (extra : dict) : dict :=
  ("function", PStr function) :: ("symbol", PStr (strip (upper s))) :: extra.


(** The transport, after fewer timeouts than [self] has attempts,
    answers the request for [params] with the successful envelope [d]: a
    JSON object with neither an ['Error Message'] nor a ['Note'] field. *)
Definition delivers (self : StockMarketClient) (params : dict) (w : world)
  (d : dict) : Prop :=
  exists k,
    (k < Z.to_nat (max_retries self))%nat
    /\ timeouts w (request_of self params) k
    /\ answers w (request_of self params) k (ok_response (PDict d))
    /\ ~ has_field d "Error Message"
    /\ ~ has_field d "Note".

(** [None], a boolean or a number: the values without [len] and [in]. *)
Definition is_scalar (v : pyval) : bool :=
  match v with
  | PNone | PBool _ | PInt _ | PFloat _ => true
  | _ => false
  end.

(** No character of [s] is whitespace. *)
Fixpoint no_space (s : string) : bool :=
  match s with
  | EmptyString => true
  | String c s' => negb (is_space c) && no_space s'
  end.

(** Every character of [s] is whitespace. *)
Fixpoint all_space (s : string) : bool :=
  match s with
  | EmptyString => true
  | String c s' => is_space c && all_space s'
  end.

(** The parameters of the three operations that take no symbol. *)
Definition search_params (keywords : string) : dict :=
  [("function", PStr "SYMBOL_SEARCH"); ("keywords", PStr (strip keywords))].

Definition status_params : dict := [("function", PStr "MARKET_STATUS")].

Definition movers_params : dict := [("function", PStr "TOP_GAINERS_LOSERS")].

(** A response with a 4xx or 5xx status: [raise_for_status] raises with
    the text [e], whatever the body is. *)
Definition error_status_response (e : string) (body : parsed)
  : http_outcome :=
  Responds (mk_response (Some e) body).

(** Sample envelopes of the other operations. *)
Definition daily_envelope : dict :=
  [("Meta Data", PDict [("2. Symbol", PStr "AAPL")]);
   ("Time Series (Daily)",
    PDict [("2023-01-01", PDict [("4. close", PStr "152.00")])])].

Definition intraday_envelope : dict :=
  [("Meta Data", PDict [("2. Symbol", PStr "AAPL")]);
   ("Time Series (5min)",
    PDict [("2023-01-01 09:30:00", PDict [("4. close", PStr "150.50")])])].

Definition search_envelope : dict :=
  [("bestMatches", PList [PDict [("1. symbol", PStr "TSLA")]])].

Definition status_envelope : dict :=
  [("endpoint", PStr "Global Market Open & Close Status");
   ("markets", PList [PDict [("region", PStr "United States")]])].

Definition movers_envelope : dict :=
  [("top_gainers", PList []);
   ("top_losers", PList [PDict [("ticker", PStr "XYZ")]])].

(** The field [k] of [d] is there and true; is absent or false. *)
Definition field_true (d : dict) (k : string) : Prop :=
  exists v, dict_lookup d k = Some v /\ truthy v = true.

Definition field_false (d : dict) (k : string) : Prop :=
  dict_lookup d k = None
  \/ exists v, dict_lookup d k = Some v /\ truthy v = false.

(** Whatever [_make_request self params] raises, in the world [w1] in
    which [op] calls it, [op] raises too, having issued no request more. *)
Definition passes_on (op : M pyval) (self : StockMarketClient)
  (params : dict) (w : world) : Prop :=
  exists w1,
    extends w w1 []
    /\ forall e w2,
        _make_request self params w1 = (Raise e, w2) ->
        exists w3, op w = (Raise e, w3) /\ extends w2 w3 [].

(** Running [m] from [w] issues the request for [params], at most
    [max_retries] times and at least once when [max_retries] is
    positive. *)
Definition requests_with (m : M pyval) (self : StockMarketClient)
  (w : world) (params : dict) : Prop :=
  exists n,
    runs m w (repeat (request_of self params) n)
    /\ (n <= Z.to_nat (max_retries self))%nat
    /\ ((1 <= max_retries self)%Z -> (1 <= n)%nat).

(** ** Lemmas on values *)

Lemma extends_refl w : extends w w [].
Proof. split; [reflexivity | now rewrite app_nil_r]. Qed.

Lemma extends_trans w1 w2 w3 r1 r2 :
  extends w1 w2 r1 -> extends w2 w3 r2 -> extends w1 w3 (r1 ++ r2).
Proof.
  intros [N1 C1] [N2 C2]. split.
  - congruence.
  - rewrite C2, C1. now rewrite app_assoc.
Qed.

Lemma repeat_snoc {A} (x : A) n : repeat x n ++ [x] = repeat x (S n).
Proof.
  induction n as [|n IH]; simpl; [reflexivity|].
  now rewrite IH.
Qed.

Lemma dict_mem_has_field d k : dict_mem d k = true <-> has_field d k.
Proof.
  unfold dict_mem, has_field, dict_keys.
  induction d as [|[k' v] d IH]; simpl.
  - split; [discriminate | tauto].
  - destruct (String.eqb_spec k' k) as [->|Hne].
    + split; auto.
    + rewrite IH. split; [auto | intros [H|H]; [contradiction | exact H]].
Qed.

Lemma dict_mem_false d k : dict_mem d k = false <-> ~ has_field d k.
Proof.
  rewrite <- dict_mem_has_field. destruct (dict_mem d k); split; congruence.
Qed.

Lemma dict_lookup_set d k v : dict_lookup (dict_set d k v) k = Some v.
Proof.
  induction d as [|[k' v'] d IH]; simpl.
  - now rewrite String.eqb_refl.
  - destruct (String.eqb_spec k' k) as [->|Hne]; simpl.
    + now rewrite String.eqb_refl.
    + destruct (String.eqb_spec k' k); [contradiction | exact IH].
Qed.

Lemma dict_lookup_set_other d k k' v :
  k <> k' -> dict_lookup (dict_set d k v) k' = dict_lookup d k'.
Proof.
  intros Hne. induction d as [|[k0 v0] d IH]; simpl.
  - destruct (String.eqb_spec k k'); [contradiction | reflexivity].
  - destruct (String.eqb_spec k0 k) as [->|Hk]; simpl.
    + destruct (String.eqb_spec k k'); [contradiction | reflexivity].
    + destruct (String.eqb_spec k0 k'); [reflexivity | exact IH].
Qed.

Lemma not_nonempty_str_spec v :
  not_nonempty_str v = false <-> nonempty_str v.
Proof.
  unfold not_nonempty_str, nonempty_str. split.
  - destruct v; simpl; try discriminate;
      try (rewrite orb_true_r; discriminate).
    rewrite orb_false_r, negb_involutive.
    destruct (String.eqb_spec s ""); simpl; [discriminate|].
    intros _. now exists s.
  - intros (s & -> & Hs). simpl.
    destruct (String.eqb_spec s ""); [contradiction | reflexivity].
Qed.

Lemma not_nonempty_str_true v :
  v = PStr "" \/ isinstance_str v = false -> not_nonempty_str v = true.
Proof.
  unfold not_nonempty_str. intros [-> | H]; [reflexivity|].
  rewrite H. apply orb_true_r.
Qed.

Lemma in_strs_spec v l : in_strs v l = true <-> one_of v l.
Proof.
  unfold in_strs, one_of. rewrite existsb_exists. split.
  - intros (s & Hin & Heq). destruct v; simpl in Heq; try discriminate.
    apply String.eqb_eq in Heq. subst. now exists s.
  - intros (s & -> & Hin). exists s. split; [exact Hin|].
    simpl. apply String.eqb_refl.
Qed.

Lemma in_strs_false v l : in_strs v l = false <-> ~ one_of v l.
Proof.
  rewrite <- in_strs_spec. destruct (in_strs v l); split; congruence.
Qed.

(** ** Lemmas on [upper] and [strip] *)

(** The upper-case form of a whitespace character is the character, and
    that of another character has no whitespace and is not empty. *)
Lemma upper_char_spaces c :
  if is_space c then upper_char c = String c ""
  else no_space (upper_char c) = true /\ upper_char c <> "".
Proof.
  destruct c as [[] [] [] [] [] [] [] []];
    first [reflexivity | split; [reflexivity | discriminate]].
Qed.









(** No whitespace is left at either end. *)
Lemma lstrip_head s c s' : lstrip s = String c s' -> is_space c = false.
Proof.
  induction s as [|a s IH]; simpl; [discriminate|].
  destruct (is_space a) eqn:E; [exact IH|].
  intros H. injection H as -> _. exact E.
Qed.

Lemma rstrip_head s c s' :
  rstrip s = String c s' -> exists t, s = String c t.
Proof.
  destruct s as [|a s]; simpl; [discriminate|].
  destruct (rstrip s); [destruct (is_space a); [discriminate|]|];
    intros H; injection H as -> _; eauto.
Qed.

Lemma strip_head s c s' : strip s = String c s' -> is_space c = false.
Proof.
  unfold strip. intros H. destruct (rstrip_head _ _ _ H) as [t Ht].
  exact (lstrip_head _ _ _ Ht).
Qed.

Lemma rstrip_last s s1 c :
  rstrip s = (s1 ++ String c "")%string -> is_space c = false.
Proof.
  revert s1. induction s as [|a s IH]; intros s1; simpl.
  - destruct s1; discriminate.
  - destruct (rstrip s) as [|b r] eqn:E.
    + destruct (is_space a) eqn:Ea.
      * destruct s1; discriminate.
      * destruct s1 as [|x [|y s1]]; simpl; try discriminate.
        intros H. injection H as ->. exact Ea.
    + destruct s1 as [|x s1]; simpl; [discriminate|].
      intros H. injection H as _ H. exact (IH _ H).
Qed.

Lemma strip_last s s1 c :
  strip s = (s1 ++ String c "")%string -> is_space c = false.
Proof. unfold strip. apply rstrip_last. Qed.

(** ** The retry loop *)

Section RetryLoop.

Variable self : StockMarketClient.
Variable params : dict.

Let req : request := mk_request (base_url self) params (timeout self).

(** [inspect] issues no request. *)
Lemma inspect_extends data w :
  exists r w', inspect data w = (r, w') /\ extends w w' [].
Proof.
  unfold inspect, bind, py_in, py_getitem, log, raise, ret.
  destruct data as [| | | | s | xs | d]; simpl;
    try (eexists; eexists; split; [reflexivity | apply extends_refl]).
  - destruct (contains_substring "Error Message" s); simpl;
      [|destruct (contains_substring "Note" s); simpl];
      eexists; eexists; (split; [reflexivity | apply extends_refl]).
  - destruct (existsb _ xs); simpl;
      [|destruct (existsb _ xs); simpl];
      eexists; eexists; (split; [reflexivity | apply extends_refl]).
  - destruct (dict_mem d "Error Message") eqn:E1; simpl.
    + destruct (dict_lookup d "Error Message"); simpl;
        eexists; eexists;
        (split; [reflexivity | split; simpl; auto using app_nil_r]).
    + destruct (dict_mem d "Note") eqn:E2; simpl.
      * destruct (dict_lookup d "Note"); simpl;
          eexists; eexists;
          (split; [reflexivity | split; simpl; auto using app_nil_r]).
      * eexists; eexists; split; [reflexivity | apply extends_refl].
Qed.

(** One iteration whose call times out, when it is not the last. *)
Lemma retry_loop_timeout_step todo attempt w :
  (attempt + Z.of_nat (S (S todo)) = max_retries self)%Z ->
  timeouts w req 1 ->
  exists w',
    retry_loop self params (S (S todo)) attempt w
    = retry_loop self params (S todo) (attempt + 1)%Z w'
    /\ extends w w' [req].
Proof.
  intros Hn Ht. specialize (Ht 0%nat (Nat.lt_0_1)).
  rewrite Nat.add_0_r in Ht.
  cbn [retry_loop]. unfold bind at 1. unfold log at 1. cbn [fst snd].
  unfold bind at 1. unfold requests_get at 1.
  cbn [net http_calls log_records]. fold req.
  destruct (net w (List.length (http_calls w)) req); try discriminate.
  unfold bind at 1. unfold log at 1. cbn [net http_calls log_records].
  replace (attempt =? max_retries self - 1)%Z with false
    by (symmetry; apply Z.eqb_neq; lia).
  eexists. split; [reflexivity|]. split; reflexivity.
Qed.

(** [k] timeouts in a row, none of them in the last iteration. *)
Lemma retry_loop_timeouts k : forall todo attempt w,
  (k < todo)%nat ->
  (attempt + Z.of_nat todo = max_retries self)%Z ->
  timeouts w req k ->
  exists w',
    retry_loop self params todo attempt w
    = retry_loop self params (todo - k) (attempt + Z.of_nat k)%Z w'
    /\ extends w w' (repeat req k).
Proof.
  induction k as [|k IH]; intros todo attempt w Hk Hn Ht.
  - exists w. rewrite Nat.sub_0_r, Z.add_0_r.
    split; [reflexivity | apply extends_refl].
  - destruct todo as [|[|todo]]; try lia.
    destruct (retry_loop_timeout_step todo attempt w Hn) as (w1 & E1 & X1).
    { intros i Hi. apply Ht. lia. }
    destruct (IH (S todo) (attempt + 1)%Z w1) as (w2 & E2 & X2);
      try lia.
    { intros i Hi. destruct X1 as [N1 C1]. rewrite N1, C1.
      rewrite length_app. simpl.
      replace (List.length (http_calls w) + 1 + i)%nat
        with (List.length (http_calls w) + S i)%nat by lia.
      apply Ht. lia. }
    exists w2. split.
    + rewrite E1, E2. f_equal. lia.
    + exact (extends_trans _ _ _ _ _ X1 X2).
Qed.

(** The last iteration, when its call times out. *)
Lemma retry_loop_last_timeout attempt w :
  (attempt + 1 = max_retries self)%Z ->
  timeouts w req 1 ->
  exists w',
    retry_loop self params 1 attempt w
    = (Raise (mk_exn ConnectionError
                     [Lit "Request timeout after all retries"]), w')
    /\ extends w w' [req].
Proof.
  intros Hn Ht. specialize (Ht 0%nat (Nat.lt_0_1)).
  rewrite Nat.add_0_r in Ht.
  cbn [retry_loop]. unfold bind, log, requests_get, raise.
  cbn [net http_calls log_records]. fold req.
  destruct (net w (List.length (http_calls w)) req); try discriminate.
  cbn [net http_calls log_records].
  replace (attempt =? max_retries self - 1)%Z with true
    by (symmetry; apply Z.eqb_eq; lia).
  eexists. split; [reflexivity|]. split; reflexivity.
Qed.

(** An iteration whose call raises a connection error. *)
Lemma retry_loop_connection_error todo attempt w e :
  answers w req 0 (RaisesConnectionError e) ->
  exists w',
    retry_loop self params (S todo) attempt w
    = (Raise (mk_exn ConnectionError
                     [Lit "Failed to connect to Alpha Vantage API: ";
                      Lit e]), w')
    /\ extends w w' [req].
Proof.
  unfold answers. rewrite Nat.add_0_r. intros Ha.
  cbn [retry_loop]. unfold bind, log, requests_get, raise.
  cbn [net http_calls log_records]. fold req. rewrite Ha.
  cbn [net http_calls log_records].
  eexists. split; [reflexivity|]. split; reflexivity.
Qed.

(** An iteration whose call returns a 200 response with a JSON body. *)
Lemma retry_loop_ok todo attempt w data :
  answers w req 0 (ok_response data) ->
  exists w1,
    retry_loop self params (S todo) attempt w = inspect data w1
    /\ extends w w1 [req].
Proof.
  unfold answers, ok_response. rewrite Nat.add_0_r. intros Ha.
  cbn [retry_loop]. unfold bind at 1. unfold log at 1.
  unfold bind at 1. unfold requests_get at 1.
  cbn [net http_calls log_records]. fold req. rewrite Ha.
  cbn [http_error json].
  eexists. split; [reflexivity|]. split; reflexivity.
Qed.

(** An iteration whose call does anything but time out ends the loop. *)
Lemma retry_loop_terminal todo attempt w :
  is_timeout (net w (List.length (http_calls w)) req) = false ->
  exists r w',
    retry_loop self params (S todo) attempt w = (r, w')
    /\ extends w w' [req].
Proof.
  intros Ht.
  cbn [retry_loop]. unfold bind at 1. unfold log at 1.
  unfold bind at 1. unfold requests_get at 1.
  cbn [net http_calls log_records]. fold req.
  set (w1 := mk_world _ _ _).
  assert (X1 : extends w w1 [req]) by (split; reflexivity).
  assert (Hx : forall e, exists r w',
               on_request_exception e w1 = (r, w') /\ extends w w' [req]).
  { intros e. unfold on_request_exception, bind, log, raise.
    eexists. eexists. split; [reflexivity|]. split; reflexivity. }
  destruct (net w (List.length (http_calls w)) req) as [e|e|e|r];
    try discriminate.
  - unfold bind, log, raise.
    eexists. eexists. split; [reflexivity|]. split; reflexivity.
  - apply Hx.
  - destruct (http_error r); [apply Hx|].
    destruct (json r) as [data|e|e]; [|apply Hx|].
    + destruct (inspect_extends data w1) as (r' & w' & E & X).
      exists r', w'. split; [exact E|].
      rewrite <- (app_nil_r [req]). exact (extends_trans _ _ _ _ _ X1 X).
    + exists (Raise e), w1. split; [reflexivity | exact X1].
Qed.

(** Whatever the transport does, the loop issues the same request some
    number of times, at most [todo]. *)
Lemma retry_loop_extends todo : forall attempt w,
  exists r w' n,
    retry_loop self params todo attempt w = (r, w')
    /\ extends w w' (repeat req n)
    /\ (n <= todo)%nat
    /\ (1 <= todo -> 1 <= n)%nat.
Proof.
  induction todo as [|todo IH]; intros attempt w.
  - eexists. exists w, 0%nat. cbn [retry_loop]. unfold raise.
    split; [reflexivity|]. split; [apply extends_refl | lia].
  - destruct (is_timeout (net w (List.length (http_calls w)) req)) eqn:Ht.
    + cbn [retry_loop]. unfold bind at 1. unfold log at 1.
      unfold bind at 1. unfold requests_get at 1.
      cbn [net http_calls log_records]. fold req.
      destruct (net w (List.length (http_calls w)) req); try discriminate.
      unfold bind at 1. unfold log at 1. cbn [net http_calls log_records].
      set (w1 := mk_world _ _ _).
      assert (X1 : extends w w1 [req]) by (split; reflexivity).
      destruct (attempt =? max_retries self - 1)%Z.
      * unfold raise. eexists. exists w1, 1%nat.
        split; [reflexivity|]. split; [exact X1 | lia].
      * destruct (IH (attempt + 1)%Z w1) as (r & w' & n & E & X & Hn & _).
        exists r, w', (S n). split; [exact E|].
        split; [exact (extends_trans _ _ _ _ _ X1 X) | lia].
    + destruct (retry_loop_terminal todo attempt w Ht) as (r & w' & E & X).
      exists r, w', 1%nat. split; [exact E|]. split; [exact X | lia].
Qed.

End RetryLoop.

(** ** The request executor *)

Lemma answers_shift w w1 req k o :
  extends w w1 (repeat req k) -> answers w req k o -> answers w1 req 0 o.
Proof.
  unfold answers. intros [N C] H.
  now rewrite N, C, length_app, repeat_length, Nat.add_0_r.
Qed.

Lemma answers_not_timeout w req o :
  answers w req 0 o -> is_timeout o = false ->
  is_timeout (net w (List.length (http_calls w)) req) = false.
Proof. unfold answers. rewrite Nat.add_0_r. now intros ->. Qed.

Lemma timeouts_shift w w1 req k :
  extends w w1 (repeat req k) -> timeouts w req (S k) -> timeouts w1 req 1.
Proof.
  unfold timeouts. intros [N C] H i Hi.
  rewrite N, C, length_app, repeat_length.
  replace i with 0%nat by lia. rewrite Nat.add_0_r. apply H. lia.
Qed.

Lemma timeouts_weaken w req k k' :
  (k <= k')%nat -> timeouts w req k' -> timeouts w req k.
Proof. unfold timeouts. intros Hk H i Hi. apply H. lia. Qed.

(** After [k] timeouts that leave attempts to spare, [_make_request] is
    at the head of iteration [k] of its loop. *)
Lemma make_request_after_timeouts self params w k :
  let req := request_of self params in
  (k < Z.to_nat (max_retries self))%nat ->
  timeouts w req k ->
  exists w1,
    _make_request self params w
    = retry_loop self (req_params req)
                 (S (Z.to_nat (max_retries self) - S k)) (Z.of_nat k) w1
    /\ extends w w1 (repeat req k).
Proof.
  intros req Hk Ht. unfold _make_request.
  destruct (retry_loop_timeouts self (req_params req) k
              (Z.to_nat (max_retries self)) 0%Z w Hk) as (w1 & E & X).
  - lia.
  - exact Ht.
  - exists w1. split; [|exact X].
    cbn [req req_params request_of] in *. rewrite E.
    f_equal. lia.
Qed.

(** What [inspect] does with a JSON object. *)
Lemma inspect_error_message d v w :
  dict_lookup d "Error Message" = Some v ->
  exists w',
    inspect (PDict d) w
    = (Raise (mk_exn APIError [Lit "Alpha Vantage API Error: "; Fmt v]), w')
    /\ extends w w' [].
Proof.
  intros H. unfold inspect, bind, py_in, py_getitem, log, raise, ret, dict_mem.
  rewrite H. eexists. split; [reflexivity|].
  split; simpl; auto using app_nil_r.
Qed.

Lemma inspect_note d v w :
  dict_lookup d "Error Message" = None ->
  dict_lookup d "Note" = Some v ->
  exists w',
    inspect (PDict d) w
    = (Raise (mk_exn RateLimitError
                     [Lit "Alpha Vantage Rate Limit: "; Fmt v]), w')
    /\ extends w w' [].
Proof.
  intros H1 H2.
  unfold inspect, bind, py_in, py_getitem, log, raise, ret, dict_mem.
  rewrite H1. cbn iota beta. rewrite H2. eexists. split; [reflexivity|].
  split; simpl; auto using app_nil_r.
Qed.

Lemma inspect_payload d w :
  dict_lookup d "Error Message" = None ->
  dict_lookup d "Note" = None ->
  inspect (PDict d) w = (Ok (PDict d), w).
Proof.
  intros H1 H2.
  unfold inspect, bind, py_in, py_getitem, log, raise, ret, dict_mem.
  now rewrite H1, H2.
Qed.

Lemma has_field_lookup d k :
  has_field d k -> exists v, dict_lookup d k = Some v.
Proof.
  intros H. apply dict_mem_has_field in H. unfold dict_mem in H.
  destruct (dict_lookup d k) as [v|]; [now exists v | discriminate].
Qed.

Lemma no_field_lookup d k : ~ has_field d k -> dict_lookup d k = None.
Proof.
  intros H. apply dict_mem_false in H. unfold dict_mem in H.
  destruct (dict_lookup d k); [discriminate | reflexivity].
Qed.

(** A successful envelope comes back from [_make_request] as it is, after
    [k] timeouts and one more request. *)
Lemma make_request_payload self params w k d :
  let req := request_of self params in
  (k < Z.to_nat (max_retries self))%nat ->
  timeouts w req k ->
  answers w req k (ok_response (PDict d)) ->
  ~ has_field d "Error Message" ->
  ~ has_field d "Note" ->
  exists w',
    _make_request self params w = (Ok (PDict d), w')
    /\ extends w w' (repeat req (S k)).
Proof.
  intros req Hk Ht Ha He Hn.
  destruct (make_request_after_timeouts self params w k Hk Ht)
    as (w1 & E1 & X1).
  fold req in E1, X1.
  destruct (retry_loop_ok self (req_params req)
              (Z.to_nat (max_retries self) - S k) (Z.of_nat k) w1 (PDict d))
    as (w2 & E2 & X2).
  { exact (answers_shift _ _ _ _ _ X1 Ha). }
  exists w2. split.
  - rewrite E1, E2.
    apply inspect_payload; now apply no_field_lookup.
  - rewrite <- repeat_snoc. exact (extends_trans _ _ _ _ _ X1 X2).
Qed.

(** Whatever the transport does, [_make_request] issues one and the same
    request, at most [max_retries] times, and at least once when
    [max_retries] is positive. *)
Lemma make_request_attempts self params w :
  exists r w' n,
    _make_request self params w = (r, w')
    /\ extends w w' (repeat (request_of self params) n)
    /\ (n <= Z.to_nat (max_retries self))%nat
    /\ ((1 <= max_retries self)%Z -> (1 <= n)%nat).
Proof.
  unfold _make_request.
  destruct (retry_loop_extends self
              (dict_set params "apikey" (PStr (api_key self)))
              (Z.to_nat (max_retries self)) 0%Z w)
    as (r & w' & n & E & X & Hn & H1).
  exists r, w', n. repeat split; try assumption; try apply X.
  intros H. apply H1. lia.
Qed.

(** ** Retry policy *)

(** C1.  Only timeouts are retried.  When every attempt times out, the
    call raises [ConnectionError] after exactly [max_retries] requests.
    When an attempt raises a connection error that is not a timeout (the
    attempts before it having timed out), the call raises
    [ConnectionError] with that attempt as its last request: one request
    when it is the first attempt.  More generally any outcome other than
    a timeout ends the call at the attempt where it occurs. *)
Theorem make_request_retries_only_timeouts self params w :
  let req := request_of self params in
  let n := Z.to_nat (max_retries self) in
  ((1 <= max_retries self)%Z ->
   timeouts w req n ->
   exists w',
     _make_request self params w
     = (Raise (mk_exn ConnectionError
                      [Lit "Request timeout after all retries"]), w')
     /\ extends w w' (repeat req n))
  /\ (forall k e,
         (k < n)%nat ->
         timeouts w req k ->
         answers w req k (RaisesConnectionError e) ->
         exists w',
           _make_request self params w
           = (Raise (mk_exn ConnectionError
                            [Lit "Failed to connect to Alpha Vantage API: ";
                             Lit e]), w')
           /\ extends w w' (repeat req (S k)))
  /\ (forall k o,
         (k < n)%nat ->
         timeouts w req k ->
         answers w req k o ->
         is_timeout o = false ->
         exists r w',
           _make_request self params w = (r, w')
           /\ extends w w' (repeat req (S k))).
Proof.
  intros req n. split; [|split].
  - intros Hpos Ht.
    assert (Hk : (n - 1 < n)%nat) by (unfold n; lia).
    destruct (make_request_after_timeouts self params w (n - 1) Hk)
      as (w1 & E1 & X1).
    { apply (timeouts_weaken _ _ _ n); [lia | exact Ht]. }
    fold req n in E1, X1.
    replace (S (n - S (n - 1))) with 1%nat in E1 by lia.
    destruct (retry_loop_last_timeout self (req_params req)
                (Z.of_nat (n - 1)) w1) as (w2 & E2 & X2).
    + unfold n. lia.
    + apply (timeouts_shift w _ req (n - 1) X1).
      replace (S (n - 1)) with n by lia. exact Ht.
    + exists w2. split; [now rewrite E1, E2|].
      replace (repeat req n) with (repeat req (n - 1) ++ [req])
        by (rewrite repeat_snoc; f_equal; lia).
      exact (extends_trans _ _ _ _ _ X1 X2).
  - intros k e Hk Ht Ha.
    destruct (make_request_after_timeouts self params w k Hk Ht)
      as (w1 & E1 & X1).
    fold req n in E1, X1.
    destruct (retry_loop_connection_error self (req_params req)
                (n - S k) (Z.of_nat k) w1 e) as (w2 & E2 & X2).
    + exact (answers_shift _ _ _ _ _ X1 Ha).
    + exists w2. split; [now rewrite E1, E2|].
      rewrite <- repeat_snoc. exact (extends_trans _ _ _ _ _ X1 X2).
  - intros k o Hk Ht Ha Ho.
    destruct (make_request_after_timeouts self params w k Hk Ht)
      as (w1 & E1 & X1).
    fold req n in E1, X1.
    destruct (retry_loop_terminal self (req_params req)
                (n - S k) (Z.of_nat k) w1) as (r & w2 & E2 & X2).
    + apply (answers_not_timeout _ _ o); [|exact Ho].
      exact (answers_shift _ _ _ _ _ X1 Ha).
    + exists r, w2. split; [now rewrite E1, E2|].
      rewrite <- repeat_snoc. exact (extends_trans _ _ _ _ _ X1 X2).
Qed.

Lemma make_request_retries_only_timeouts_witness :
  (exists w',
      _make_request demo_client quote_params
        (fresh_world (timeouts_then 3 (RaisesConnectionError "refused")))
      = (Raise (mk_exn ConnectionError
                       [Lit "Request timeout after all retries"]), w')
      /\ List.length (http_calls w') = 3%nat)
  /\ (exists w',
         _make_request demo_client quote_params
           (fresh_world (timeouts_then 0 (RaisesConnectionError "refused")))
         = (Raise (mk_exn ConnectionError
                          [Lit "Failed to connect to Alpha Vantage API: ";
                           Lit "refused"]), w')
         /\ List.length (http_calls w') = 1%nat)
  /\ (exists r w',
         _make_request demo_client quote_params
           (fresh_world (timeouts_then 1 (RaisesRequestException "bad url")))
         = (r, w')
         /\ List.length (http_calls w') = 2%nat).
Proof.
  split; [|split].
  - destruct (make_request_retries_only_timeouts demo_client quote_params
                (fresh_world (timeouts_then 3 (RaisesConnectionError "refused"))))
      as (H & _ & _).
    destruct H as (w' & E & X).
    + simpl. lia.
    + intros i Hi. simpl in Hi. simpl.
      destruct i as [|[|[|i]]]; [reflexivity .. | lia].
    + exists w'. split; [exact E|]. destruct X as [_ C]. now rewrite C.
  - destruct (make_request_retries_only_timeouts demo_client quote_params
                (fresh_world (timeouts_then 0 (RaisesConnectionError "refused"))))
      as (_ & H & _).
    destruct (H 0%nat "refused") as (w' & E & X).
    + simpl. lia.
    + intros i Hi. lia.
    + reflexivity.
    + exists w'. split; [exact E|]. destruct X as [_ C]. now rewrite C.
  - destruct (make_request_retries_only_timeouts demo_client quote_params
                (fresh_world (timeouts_then 1 (RaisesRequestException "bad url"))))
      as (_ & _ & H).
    destruct (H 1%nat (RaisesRequestException "bad url"))
      as (r & w' & E & X).
    + simpl. lia.
    + intros i Hi. replace i with 0%nat by lia. reflexivity.
    + reflexivity.
    + reflexivity.
    + exists r, w'. split; [exact E|]. destruct X as [_ C]. now rewrite C.
Defined.

(** A 200 response with a JSON body, after [k] timeouts, hands the body
    to [inspect]. *)
Lemma make_request_inspects self params w k data :
  let req := request_of self params in
  (k < Z.to_nat (max_retries self))%nat ->
  timeouts w req k ->
  answers w req k (ok_response data) ->
  exists w1,
    _make_request self params w = inspect data w1
    /\ extends w w1 (repeat req (S k)).
Proof.
  intros req Hk Ht Ha.
  destruct (make_request_after_timeouts self params w k Hk Ht)
    as (w1 & E1 & X1).
  fold req in E1, X1.
  destruct (retry_loop_ok self (req_params req)
              (Z.to_nat (max_retries self) - S k) (Z.of_nat k) w1 data)
    as (w2 & E2 & X2).
  { exact (answers_shift _ _ _ _ _ X1 Ha). }
  exists w2. split; [now rewrite E1, E2|].
  rewrite <- repeat_snoc. exact (extends_trans _ _ _ _ _ X1 X2).
Qed.

(** ** Classification of the response envelope *)

(** C2.  For a response whose body parses to a JSON object [d]: with an
    ['Error Message'] field the call raises [APIError] carrying that
    field, whatever else [d] holds; with a ['Note'] field and no
    ['Error Message'] field it raises [RateLimitError] carrying the
    note; with neither it returns [d] itself. *)
Theorem make_request_classifies_envelope self params w k d :
  let req := request_of self params in
  (k < Z.to_nat (max_retries self))%nat ->
  timeouts w req k ->
  answers w req k (ok_response (PDict d)) ->
  (has_field d "Error Message" ->
   exists v w',
     dict_lookup d "Error Message" = Some v
     /\ _make_request self params w
        = (Raise (mk_exn APIError
                         [Lit "Alpha Vantage API Error: "; Fmt v]), w'))
  /\ (has_field d "Note" ->
      ~ has_field d "Error Message" ->
      exists v w',
        dict_lookup d "Note" = Some v
        /\ _make_request self params w
           = (Raise (mk_exn RateLimitError
                            [Lit "Alpha Vantage Rate Limit: "; Fmt v]), w'))
  /\ (~ has_field d "Error Message" ->
      ~ has_field d "Note" ->
      exists w', _make_request self params w = (Ok (PDict d), w')).
Proof.
  intros req Hk Ht Ha.
  destruct (make_request_inspects self params w k (PDict d) Hk Ht Ha)
    as (w1 & E1 & _).
  split; [|split].
  - intros He. destruct (has_field_lookup _ _ He) as [v Hv].
    destruct (inspect_error_message d v w1 Hv) as (w' & E & _).
    exists v, w'. split; [exact Hv | now rewrite E1].
  - intros Hn He. destruct (has_field_lookup _ _ Hn) as [v Hv].
    destruct (inspect_note d v w1 (no_field_lookup _ _ He) Hv)
      as (w' & E & _).
    exists v, w'. split; [exact Hv | now rewrite E1].
  - intros He Hn. exists w1. rewrite E1.
    apply inspect_payload; now apply no_field_lookup.
Qed.

Lemma make_request_classifies_envelope_witness :
  (exists v w',
      _make_request demo_client quote_params
        (fresh_world (timeouts_then 0 (ok_response (PDict error_envelope))))
      = (Raise (mk_exn APIError
                       [Lit "Alpha Vantage API Error: "; Fmt v]), w'))
  /\ (exists v w',
         _make_request demo_client quote_params
           (fresh_world (timeouts_then 1 (ok_response (PDict note_envelope))))
         = (Raise (mk_exn RateLimitError
                          [Lit "Alpha Vantage Rate Limit: "; Fmt v]), w'))
  /\ (exists w',
         _make_request demo_client quote_params
           (fresh_world
              (timeouts_then 2 (ok_response (PDict quote_envelope))))
         = (Ok (PDict quote_envelope), w')).
Proof.
  split; [|split].
  - destruct (make_request_classifies_envelope demo_client quote_params
                (fresh_world
                   (timeouts_then 0 (ok_response (PDict error_envelope))))
                0%nat error_envelope) as (H & _ & _).
    + simpl. lia.
    + intros i Hi. lia.
    + reflexivity.
    + destruct H as (v & w' & _ & E).
      * unfold has_field. simpl. tauto.
      * exists v, w'. exact E.
  - destruct (make_request_classifies_envelope demo_client quote_params
                (fresh_world
                   (timeouts_then 1 (ok_response (PDict note_envelope))))
                1%nat note_envelope) as (_ & H & _).
    + simpl. lia.
    + intros i Hi. replace i with 0%nat by lia. reflexivity.
    + reflexivity.
    + destruct H as (v & w' & _ & E).
      * unfold has_field. simpl. tauto.
      * unfold has_field. simpl. intros [H|[]]. discriminate.
      * exists v, w'. exact E.
  - destruct (make_request_classifies_envelope demo_client quote_params
                (fresh_world
                   (timeouts_then 2 (ok_response (PDict quote_envelope))))
                2%nat quote_envelope) as (_ & _ & H).
    + simpl. lia.
    + intros i Hi. destruct i as [|[|i]]; [reflexivity | reflexivity | lia].
    + reflexivity.
    + apply H; unfold has_field; simpl; intros [H'|[]]; discriminate.
Defined.

(** ** The exception classes *)

Lemma issubclass_spec c d : issubclass c d = true <-> subclass c d.
Proof.
  split.
  - destruct c, d; intros H; try discriminate H;
      repeat (first [apply subclass_refl
                    | eapply subclass_step; [reflexivity|]]).
  - intros H. induction H as [c | c b d Hb _ IH].
    + destruct c; reflexivity.
    + destruct c; simpl in Hb; try discriminate Hb;
        injection Hb as <-; destruct d; try reflexivity; discriminate IH.
Qed.

(** C3, as the code has it.  Two classes derive from [APIError]:
    [RateLimitError] and [ConnectionError]; no class derives from either
    of them, nor from [InvalidArgsError] or [DataNotFoundError]; the
    remaining classes of the client derive from the common base
    [AlphaVantageError].  So the subclasses of [APIError] are itself and
    these two, and every exception raised as [ConnectionError] is an
    [APIError], and is not a [RateLimitError]. *)
Theorem connection_error_derives_from_api_error :
  (forall c, base c = Some APIError
             <-> c = RateLimitError \/ c = ConnectionError)
  /\ (forall c, base c = Some AlphaVantageError
                <-> c = InvalidArgsError \/ c = APIError
                    \/ c = DataNotFoundError)
  /\ (forall c, base c <> Some RateLimitError
                /\ base c <> Some ConnectionError
                /\ base c <> Some InvalidArgsError
                /\ base c <> Some DataNotFoundError)
  /\ (forall c, subclass c APIError
                <-> c = APIError \/ c = RateLimitError
                    \/ c = ConnectionError)
  /\ (forall e, exn_cls e = ConnectionError ->
                isinstance e APIError = true
                /\ isinstance e RateLimitError = false).
Proof.
  split; [|split; [|split; [|split]]].
  - intros c. split.
    + destruct c; simpl; intros H; try discriminate H; auto.
    + intros [-> | ->]; reflexivity.
  - intros c. split.
    + destruct c; simpl; intros H; try discriminate H; auto.
    + intros [-> | [-> | ->]]; reflexivity.
  - intros c. destruct c; simpl; repeat split; discriminate.
  - intros c. rewrite <- issubclass_spec. split.
    + destruct c; intros H; try discriminate H; auto.
    + intros [-> | [-> | ->]]; reflexivity.
  - intros [c msg]. simpl. intros ->. split; reflexivity.
Qed.

Lemma connection_error_derives_from_api_error_witness :
  isinstance (mk_exn ConnectionError
                     [Lit "Request timeout after all retries"]) APIError
  = true.
Proof.
  destruct connection_error_derives_from_api_error as (_ & _ & _ & _ & H).
  apply (H (mk_exn ConnectionError
                   [Lit "Request timeout after all retries"])).
  reflexivity.
Defined.

(** C3, as the claim has it, fails: [RateLimitError] is not the only
    class under [APIError], and the exception a run of timeouts ends in
    is both a [ConnectionError] and an [APIError]. *)
Lemma connection_error_is_not_top_level :
  ~ (forall c, subclass c APIError -> c = APIError \/ c = RateLimitError)
  /\ ~ (forall e, exn_cls e = ConnectionError -> isinstance e APIError = false)
  /\ exists e w',
      _make_request demo_client quote_params
        (fresh_world (timeouts_then 3 (RaisesTimeout "timed out")))
      = (Raise e, w')
      /\ exn_cls e = ConnectionError
      /\ isinstance e APIError = true.
Proof.
  split; [|split].
  - intros H. destruct (H ConnectionError) as [E | E]; try discriminate E.
    apply issubclass_spec. reflexivity.
  - intros H. specialize (H (mk_exn ConnectionError []) eq_refl).
    discriminate H.
  - eexists. eexists. split; [reflexivity|]. split; reflexivity.
Qed.

(** ** Bodies that are not JSON objects *)

Lemma eq_str_true v s : eq_str v s = true <-> v = PStr s.
Proof.
  destruct v; simpl; try (split; discriminate).
  rewrite String.eqb_eq. split; [now intros -> | now intros [= ->]].
Qed.

Lemma existsb_eq_str_false xs s :
  ~ In (PStr s) xs -> existsb (fun x => eq_str x s) xs = false.
Proof.
  intros H. destruct (existsb _ xs) eqn:E; [|reflexivity].
  apply existsb_exists in E. destruct E as (x & Hin & Hx).
  apply eq_str_true in Hx. subst. contradiction.
Qed.

Lemma inspect_list xs w :
  ~ In (PStr "Error Message") xs ->
  ~ In (PStr "Note") xs ->
  inspect (PList xs) w = (Ok (PList xs), w).
Proof.
  intros H1 H2. unfold inspect, bind, py_in, ret.
  now rewrite (existsb_eq_str_false _ _ H1), (existsb_eq_str_false _ _ H2).
Qed.

Lemma retry_loop_bad_json self params todo attempt w e :
  answers w (mk_request (base_url self) params (timeout self)) 0
          (bad_json_response e) ->
  exists w',
    retry_loop self params (S todo) attempt w
    = (Raise (mk_exn APIError [Lit "Request failed: "; Lit e]), w').
Proof.
  unfold answers, bad_json_response. rewrite Nat.add_0_r. intros Ha.
  cbn [retry_loop]. unfold bind at 1. unfold log at 1.
  unfold bind at 1. unfold requests_get at 1.
  cbn [net http_calls log_records]. rewrite Ha. cbn [http_error json].
  unfold on_request_exception, bind, log, raise.
  eexists. reflexivity.
Qed.

(** C4, as the code has it.  A body that is not JSON, for which
    [response.json()] raises the decode error of [requests], makes the
    call raise [APIError] (the decode error is handled as a failed
    request).  A body that parses to something else than an object is not
    looked at for its type: a JSON array with neither field name among
    its elements is returned as the result. *)
Theorem make_request_on_non_object_body self params w k :
  let req := request_of self params in
  (k < Z.to_nat (max_retries self))%nat ->
  timeouts w req k ->
  (forall e,
      answers w req k (bad_json_response e) ->
      exists w',
        _make_request self params w
        = (Raise (mk_exn APIError [Lit "Request failed: "; Lit e]), w'))
  /\ (forall xs,
         answers w req k (ok_response (PList xs)) ->
         ~ In (PStr "Error Message") xs ->
         ~ In (PStr "Note") xs ->
         exists w', _make_request self params w = (Ok (PList xs), w')).
Proof.
  intros req Hk Ht. split.
  - intros e Ha.
    destruct (make_request_after_timeouts self params w k Hk Ht)
      as (w1 & E1 & X1).
    fold req in E1, X1.
    destruct (retry_loop_bad_json self (req_params req)
                (Z.to_nat (max_retries self) - S k) (Z.of_nat k) w1 e)
      as (w2 & E2).
    + exact (answers_shift _ _ _ _ _ X1 Ha).
    + exists w2. now rewrite E1, E2.
  - intros xs Ha H1 H2.
    destruct (make_request_inspects self params w k (PList xs) Hk Ht Ha)
      as (w1 & E1 & _).
    exists w1. rewrite E1. now apply inspect_list.
Qed.

Lemma make_request_on_non_object_body_witness :
  (exists w',
      _make_request demo_client quote_params
        (fresh_world (timeouts_then 0 (bad_json_response "Expecting value")))
      = (Raise (mk_exn APIError
                       [Lit "Request failed: "; Lit "Expecting value"]), w'))
  /\ (exists w',
         _make_request demo_client quote_params
           (fresh_world
              (timeouts_then 0 (ok_response (PList [PInt 1; PStr "two"]))))
         = (Ok (PList [PInt 1; PStr "two"]), w')).
Proof.
  split.
  - destruct (make_request_on_non_object_body demo_client quote_params
                (fresh_world
                   (timeouts_then 0 (bad_json_response "Expecting value")))
                0%nat) as (H & _).
    + simpl. lia.
    + intros i Hi. lia.
    + apply H. reflexivity.
  - destruct (make_request_on_non_object_body demo_client quote_params
                (fresh_world
                   (timeouts_then 0
                      (ok_response (PList [PInt 1; PStr "two"]))))
                0%nat) as (_ & H).
    + simpl. lia.
    + intros i Hi. lia.
    + apply H.
      * reflexivity.
      * simpl. intros [H'|[H'|[]]]; discriminate.
      * simpl. intros [H'|[H'|[]]]; discriminate.
Defined.

(** C4, as the claim has it, fails: the body [[]] parses to a JSON array,
    and the call returns it instead of raising. *)
Lemma make_request_returns_json_array :
  exists w',
    _make_request demo_client quote_params
      (fresh_world (timeouts_then 0 (ok_response (PList []))))
    = (Ok (PList []), w')
    /\ ~ (exists e,
             fst (_make_request demo_client quote_params
                    (fresh_world (timeouts_then 0 (ok_response (PList [])))))
             = Raise e
             /\ isinstance e APIError = true).
Proof.
  eexists. split; [reflexivity|].
  intros (e & E & _). discriminate E.
Qed.

(** A body that parses to [null], a boolean or a number makes the field
    test itself raise [TypeError], which no clause of the [try] handles. *)
Lemma make_request_scalar_body self params w k v :
  let req := request_of self params in
  (k < Z.to_nat (max_retries self))%nat ->
  timeouts w req k ->
  answers w req k (ok_response v) ->
  match v with PNone | PBool _ | PInt _ | PFloat _ => True | _ => False end ->
  exists w', _make_request self params w = (Raise (mk_exn TypeError []), w').
Proof.
  intros req Hk Ht Ha Hv.
  destruct (make_request_inspects self params w k v Hk Ht Ha)
    as (w1 & E1 & _).
  exists w1. rewrite E1. destruct v; try contradiction; reflexivity.
Qed.

Lemma retry_loop_parser_failure self params todo attempt w e :
  answers w (mk_request (base_url self) params (timeout self)) 0
          (parser_failure_response e) ->
  exists w',
    retry_loop self params (S todo) attempt w = (Raise e, w')
    /\ extends w w' [mk_request (base_url self) params (timeout self)].
Proof.
  unfold answers, parser_failure_response. rewrite Nat.add_0_r. intros Ha.
  cbn [retry_loop]. unfold bind at 1. unfold log at 1.
  unfold bind at 1. unfold requests_get at 1.
  cbn [net http_calls log_records]. rewrite Ha. cbn [http_error json].
  unfold reraise. eexists. split; [reflexivity|]. split; reflexivity.
Qed.

(** X19.  A failure of [response.json()] that is not the decode error
    ([ValueError] for an integer of too many digits, [RecursionError]
    for too deep a nesting) is caught by no clause of the [try]: the
    call raises that exception as it is, not an [APIError], at the
    attempt where it occurs and without a retry. *)
Theorem parser_failure_escapes self params w k e :
  let req := request_of self params in
  (k < Z.to_nat (max_retries self))%nat ->
  timeouts w req k ->
  answers w req k (parser_failure_response e) ->
  exists w',
    _make_request self params w = (Raise e, w')
    /\ extends w w' (repeat req (S k)).
Proof.
  intros req Hk Ht Ha.
  destruct (make_request_after_timeouts self params w k Hk Ht)
    as (w1 & E1 & X1).
  fold req in E1, X1.
  destruct (retry_loop_parser_failure self (req_params req)
              (Z.to_nat (max_retries self) - S k) (Z.of_nat k) w1 e)
    as (w2 & E2 & X2).
  - exact (answers_shift _ _ _ _ _ X1 Ha).
  - exists w2. split; [now rewrite E1, E2|].
    rewrite <- repeat_snoc. exact (extends_trans _ _ _ _ _ X1 X2).
Qed.

Lemma parser_failure_escapes_witness :
  exists w',
    _make_request demo_client quote_params
      (fresh_world
         (timeouts_then 0
            (parser_failure_response
               (mk_exn ValueError
                       [Lit "Exceeds the limit (4300 digits)"]))))
    = (Raise (mk_exn ValueError [Lit "Exceeds the limit (4300 digits)"]),
       w')
    /\ List.length (http_calls w') = 1%nat
    /\ isinstance (mk_exn ValueError [Lit "Exceeds the limit (4300 digits)"])
                  APIError
       = false.
Proof.
  destruct (parser_failure_escapes demo_client quote_params
              (fresh_world
                 (timeouts_then 0
                    (parser_failure_response
                       (mk_exn ValueError
                               [Lit "Exceeds the limit (4300 digits)"]))))
              0%nat
              (mk_exn ValueError [Lit "Exceeds the limit (4300 digits)"]))
    as (w' & E & [_ C]).
  - simpl. lia.
  - intros i Hi. lia.
  - reflexivity.
  - exists w'. split; [exact E|]. split; [now rewrite C | reflexivity].
Defined.

(** ** The number of attempts *)

(** C6 fails on a client built with a negative [max_retries]: the value
    is true, so [max_retries or 3] keeps it; [range] of it is empty; no
    request is made and the statement after the loop raises. *)
Theorem negative_max_retries_reaches_fallback net0 params :
  exists self w,
    __init__ (Some "demo") None None (Some (-1)%Z) (fresh_world net0)
    = (Ok self, w)
    /\ max_retries self = (-1)%Z
    /\ _make_request self params w
       = (Raise (mk_exn APIError [Lit "Request failed after all retries"]),
          w)
    /\ http_calls w = [].
Proof.
  eexists. eexists. split; [cbv; reflexivity|]. repeat split.
Qed.

(** With a positive [max_retries] the loop does make a request, between
    one and [max_retries] of them. *)
Lemma positive_max_retries_makes_a_request self params w :
  (1 <= max_retries self)%Z ->
  exists r w' n,
    _make_request self params w = (r, w')
    /\ http_calls w' = http_calls w ++ repeat (request_of self params) n
    /\ (1 <= n <= Z.to_nat (max_retries self))%nat.
Proof.
  intros H.
  destruct (make_request_attempts self params w)
    as (r & w' & n & E & X & Hn & H1).
  exists r, w', n. split; [exact E|]. split; [apply X|].
  split; [now apply H1 | exact Hn].
Qed.

(** ** Validation of the arguments *)

(** C5.  Each of the five operations with a required string argument,
    given the empty string or a value that is not a string, raises
    [InvalidArgsError] and leaves the world as it was: no request has
    been issued (and no log record written). *)
Theorem empty_or_non_string_argument_is_rejected self arg w :
  arg = PStr "" \/ isinstance_str arg = false ->
  get_quote self arg w = (Raise symbol_error, w)
  /\ (forall outputsize,
         get_daily_data self arg outputsize w = (Raise symbol_error, w))
  /\ (forall interval outputsize,
         get_intraday_data self arg interval outputsize w
         = (Raise symbol_error, w))
  /\ search_stocks self arg w = (Raise keywords_error, w)
  /\ get_company_overview self arg w = (Raise symbol_error, w).
Proof.
  intros H. apply not_nonempty_str_true in H.
  unfold get_quote, get_daily_data, get_intraday_data, search_stocks,
    get_company_overview.
  rewrite H. repeat split.
Qed.

Lemma empty_or_non_string_argument_is_rejected_witness :
  get_quote demo_client PNone (fresh_world (timeouts_then 0 (ok_response PNone)))
  = (Raise symbol_error, fresh_world (timeouts_then 0 (ok_response PNone)))
  /\ search_stocks demo_client (PStr "")
       (fresh_world (timeouts_then 0 (ok_response PNone)))
     = (Raise keywords_error,
        fresh_world (timeouts_then 0 (ok_response PNone))).
Proof.
  split.
  - apply (empty_or_non_string_argument_is_rejected demo_client PNone).
    right. reflexivity.
  - apply (empty_or_non_string_argument_is_rejected demo_client (PStr "")).
    left. reflexivity.
Defined.

(** C7.  [get_intraday_data] checks the symbol, then the interval, then
    the output size, and raises [InvalidArgsError] for the first that
    fails, without issuing a request: an interval outside the five
    allowed, or an output size other than ['compact'] and ['full'], is
    rejected whether or not the symbol is valid. *)
Theorem get_intraday_data_validation_order self symbol interval outputsize w :
  (~ nonempty_str symbol ->
   get_intraday_data self symbol interval outputsize w
   = (Raise symbol_error, w))
  /\ (nonempty_str symbol ->
      ~ one_of interval valid_intervals ->
      get_intraday_data self symbol interval outputsize w
      = (Raise interval_error, w))
  /\ (nonempty_str symbol ->
      one_of interval valid_intervals ->
      ~ one_of outputsize outputsizes ->
      get_intraday_data self symbol interval outputsize w
      = (Raise outputsize_error, w))
  /\ (~ one_of interval valid_intervals \/ ~ one_of outputsize outputsizes ->
      exists msg,
        get_intraday_data self symbol interval outputsize w
        = (Raise (mk_exn InvalidArgsError msg), w)).
Proof.
  pose proof (not_nonempty_str_spec symbol) as Hs.
  pose proof (in_strs_spec interval valid_intervals) as Hi.
  pose proof (in_strs_spec outputsize outputsizes) as Ho.
  unfold get_intraday_data.
  destruct (not_nonempty_str symbol);
    destruct (in_strs interval valid_intervals);
    destruct (in_strs outputsize outputsizes); cbn [negb];
    repeat split; intros;
    first [ reflexivity
          | eexists; reflexivity
          | exfalso; intuition congruence ].
Qed.

Lemma get_intraday_data_validation_order_witness :
  get_intraday_data demo_client PNone (PStr "2min") (PStr "tiny")
    (fresh_world (timeouts_then 0 (ok_response PNone)))
  = (Raise symbol_error, fresh_world (timeouts_then 0 (ok_response PNone)))
  /\ get_intraday_data demo_client (PStr "AAPL") (PStr "2min") (PStr "tiny")
       (fresh_world (timeouts_then 0 (ok_response PNone)))
     = (Raise interval_error,
        fresh_world (timeouts_then 0 (ok_response PNone)))
  /\ get_intraday_data demo_client (PStr "AAPL") (PStr "5min") (PStr "tiny")
       (fresh_world (timeouts_then 0 (ok_response PNone)))
     = (Raise outputsize_error,
        fresh_world (timeouts_then 0 (ok_response PNone))).
Proof.
  assert (Hsym : nonempty_str (PStr "AAPL")).
  { exists "AAPL". split; [reflexivity | discriminate]. }
  assert (Hint : forall s, ~ In s valid_intervals ->
                           ~ one_of (PStr s) valid_intervals).
  { intros s Hs (t & [= <-] & Hin). contradiction. }
  assert (Hout : ~ one_of (PStr "tiny") outputsizes).
  { intros (t & [= <-] & Hin). simpl in Hin.
    destruct Hin as [H|[H|[]]]; discriminate. }
  split; [|split].
  - apply (get_intraday_data_validation_order
             demo_client PNone (PStr "2min") (PStr "tiny")).
    intros (s & H & _). discriminate.
  - apply (get_intraday_data_validation_order
             demo_client (PStr "AAPL") (PStr "2min") (PStr "tiny"));
      [exact Hsym|].
    apply Hint. simpl. intros [H|[H|[H|[H|[H|[]]]]]]; discriminate.
  - apply (get_intraday_data_validation_order
             demo_client (PStr "AAPL") (PStr "5min") (PStr "tiny"));
      [exact Hsym | | exact Hout].
    exists "5min". split; [reflexivity | simpl; tauto].
Defined.

(** ** Construction *)

(** C10.  A zero timeout, a zero retry count and an empty base URL are
    each taken as absent: construction does exactly what it does when the
    argument is omitted, and the client gets the defaults (30,
    3 and the provider's URL). *)
Theorem falsy_argument_is_an_omitted_argument api_key base_url timeout
  max_retries w :
  __init__ api_key (Some "") timeout max_retries w
  = __init__ api_key None timeout max_retries w
  /\ __init__ api_key base_url (Some 0%Z) max_retries w
     = __init__ api_key base_url None max_retries w
  /\ __init__ api_key base_url timeout (Some 0%Z) w
     = __init__ api_key base_url timeout None w
  /\ (forall key,
         key <> "" ->
         fst (__init__ (Some key) (Some "") timeout max_retries w)
         = Ok (mk_client key "https://www.alphavantage.co/query"
                         (or_int timeout 30) (or_int max_retries 3))
         /\ fst (__init__ (Some key) base_url (Some 0%Z) max_retries w)
            = Ok (mk_client
                    key (or_str base_url "https://www.alphavantage.co/query")
                    30 (or_int max_retries 3))
         /\ fst (__init__ (Some key) base_url timeout (Some 0%Z) w)
            = Ok (mk_client
                    key (or_str base_url "https://www.alphavantage.co/query")
                    (or_int timeout 30) 3)).
Proof.
  repeat split; try reflexivity;
    unfold __init__; destruct (String.eqb_spec key ""); try contradiction;
    reflexivity.
Qed.

Lemma falsy_argument_is_an_omitted_argument_witness :
  fst (__init__ (Some "demo") (Some "") (Some 0%Z) (Some 0%Z)
         (fresh_world (timeouts_then 0 (ok_response PNone))))
  = Ok (mk_client "demo" "https://www.alphavantage.co/query" 30 3).
Proof.
  destruct (falsy_argument_is_an_omitted_argument
              (Some "demo") (Some "") (Some 0%Z) (Some 0%Z)
              (fresh_world (timeouts_then 0 (ok_response PNone))))
    as (_ & _ & _ & H).
  destruct (H "demo") as (H1 & _ & _); [discriminate|].
  exact H1.
Defined.

(** ** Which requests an operation issues *)

Lemma bind_ret {A B} (a : A) (k : A -> M B) : bind (ret a) k = k a.
Proof. reflexivity. Qed.

(** A quiet continuation adds no request. *)
Lemma runs_bind_quiet {A B} (m : M A) (k : A -> M B) w reqs :
  runs m w reqs -> (forall a, quiet (k a)) -> runs (bind m k) w reqs.
Proof.
  intros (r & w1 & E1 & X1) Hk. unfold runs, bind. rewrite E1.
  destruct r as [a | e].
  - destruct (Hk a w1) as (r' & w2 & E2 & X2).
    exists r', w2. split; [exact E2|].
    rewrite <- (app_nil_r reqs). exact (extends_trans _ _ _ _ _ X1 X2).
  - exists (Raise e), w1. split; [reflexivity | exact X1].
Qed.

(** Nor does a quiet handler. *)
Lemma runs_try_except {A} (body : M A) (handler : exn -> M A) w reqs :
  runs body w reqs -> (forall e, quiet (handler e)) ->
  runs (try_except body handler) w reqs.
Proof.
  intros (r & w1 & E1 & X1) Hh. unfold runs, try_except. rewrite E1.
  destruct r as [a | e].
  - exists (Ok a), w1. split; [reflexivity | exact X1].
  - destruct (Hh e w1) as (r' & w2 & E2 & X2).
    exists r', w2. split; [exact E2|].
    rewrite <- (app_nil_r reqs). exact (extends_trans _ _ _ _ _ X1 X2).
Qed.

(** A log record in front changes nothing to the requests. *)
Lemma runs_after_log {A} l msg (m : M A) w reqs :
  runs m (mk_world (net w) (http_calls w) (log_records w ++ [(l, msg)])) reqs ->
  runs (log l msg ;; m) w reqs.
Proof.
  intros (r & w2 & E & [N C]). unfold runs, bind, log.
  exists r, w2. split; [exact E|]. split; assumption.
Qed.

Lemma quiet_ret {A} (a : A) : quiet (ret a).
Proof. intros w. exists (Ok a), w. split; [reflexivity | apply extends_refl]. Qed.

Lemma quiet_raise {A} c msg : quiet (@raise A c msg).
Proof.
  intros w. eexists. exists w. split; [reflexivity | apply extends_refl].
Qed.

Lemma quiet_reraise {A} e : quiet (@reraise A e).
Proof.
  intros w. eexists. exists w. split; [reflexivity | apply extends_refl].
Qed.

Lemma quiet_log l msg : quiet (log l msg).
Proof.
  intros w. eexists. eexists. split; [reflexivity|].
  split; simpl; auto using app_nil_r.
Qed.

Lemma quiet_bind {A B} (m : M A) (k : A -> M B) :
  quiet m -> (forall a, quiet (k a)) -> quiet (bind m k).
Proof. intros Hm Hk w. apply runs_bind_quiet; [apply Hm | exact Hk]. Qed.

Lemma quiet_py_get v k d : quiet (py_get v k d).
Proof. destruct v; first [apply quiet_ret | apply quiet_raise]. Qed.

Lemma quiet_py_keys v : quiet (py_keys v).
Proof. destruct v; first [apply quiet_ret | apply quiet_raise]. Qed.

Lemma quiet_py_len v : quiet (py_len v).
Proof. destruct v; first [apply quiet_ret | apply quiet_raise]. Qed.

(** Closes a goal [quiet m] for [m] built from the above. *)
Ltac quiet :=
  repeat first
    [ apply quiet_ret | apply quiet_raise | apply quiet_reraise
    | apply quiet_log | apply quiet_py_get | apply quiet_py_keys
    | apply quiet_py_len
    | apply quiet_bind; [|intro]
    | match goal with
      | |- quiet (if ?b then _ else _) => destruct b
      | |- quiet (match ?x with _ => _ end) => destruct x
      end ].

(** The shape all operations share: a log record, then, under a [try],
    [_make_request] followed by code that issues no request. *)
Lemma operation_requests self params l msg
  (post : pyval -> M pyval) (handler : exn -> M pyval) w :
  (forall data, quiet (post data)) ->
  (forall e, quiet (handler e)) ->
  exists n,
    runs (log l msg ;;
          try_except (data <- _make_request self params ;; post data)
                     handler)
         w (repeat (request_of self params) n)
    /\ (n <= Z.to_nat (max_retries self))%nat
    /\ ((1 <= max_retries self)%Z -> (1 <= n)%nat).
Proof.
  intros Hpost Hh.
  destruct (make_request_attempts self params
              (mk_world (net w) (http_calls w) (log_records w ++ [(l, msg)])))
    as (r & w2 & n & E & X & Hn & H1).
  exists n. split; [|split; assumption].
  apply runs_after_log, runs_try_except; [|exact Hh].
  apply runs_bind_quiet; [|exact Hpost].
  exists r, w2. split; assumption.
Qed.

Lemma not_nonempty_str_false s : s <> "" -> not_nonempty_str (PStr s) = false.
Proof.
  intros H. apply not_nonempty_str_spec. now exists s.
Qed.

Lemma in_strs_true v l : one_of v l -> in_strs v l = true.
Proof. apply in_strs_spec. Qed.

(** ** Normalisation of the symbol *)



(** ** Company overview *)

Lemma bind_log {A} l msg (m : M A) w :
  (log l msg ;; m) w
  = m (mk_world (net w) (http_calls w) (log_records w ++ [(l, msg)])).
Proof. reflexivity. Qed.

Lemma try_except_bind_ok {A B} (m : M A) (k : A -> M B) handler w a w1 :
  m w = (Ok a, w1) ->
  try_except (bind m k) handler w = try_except (k a) handler w1.
Proof. intros E. unfold try_except, bind. now rewrite E. Qed.

(** C9.  When the provider answers [get_company_overview] with a
    successful envelope [d] (an object with neither an ['Error Message']
    nor a ['Note'] field), the operation returns the empty dict if [d]
    has at most one field, and [d] in full if it has two or more; it
    raises in neither case. *)
Theorem get_company_overview_small_envelope self s w k d :
  let req := request_of self (symbol_params "OVERVIEW" s []) in
  s <> "" ->
  (k < Z.to_nat (max_retries self))%nat ->
  timeouts w req k ->
  answers w req k (ok_response (PDict d)) ->
  ~ has_field d "Error Message" ->
  ~ has_field d "Note" ->
  ((List.length d <= 1)%nat ->
   exists w', get_company_overview self (PStr s) w = (Ok (PDict []), w'))
  /\ ((2 <= List.length d)%nat ->
      exists w', get_company_overview self (PStr s) w = (Ok (PDict d), w')).
Proof.
  intros req Hs Hk Ht Ha He Hn.
  apply not_nonempty_str_false in Hs.
  unfold get_company_overview. rewrite Hs. cbv beta iota.
  cbn [py_upper]. rewrite bind_ret. cbv beta.
  cbn [py_strip]. rewrite bind_ret. cbv beta. rewrite !bind_log.
  set (w1 := mk_world _ _ _).
  destruct (make_request_payload self (symbol_params "OVERVIEW" s []) w1 k d
              Hk Ht Ha He Hn) as (w2 & E & _).
  unfold symbol_params in E.
  rewrite (try_except_bind_ok _ _ _ _ _ _ E).
  unfold try_except, bind, py_len, log, ret.
  split; intros Hlen.
  - destruct d as [|x [|y d]]; simpl in Hlen; try lia;
      eexists; reflexivity.
  - destruct d as [|x [|y d]]; simpl in Hlen; try lia.
    cbn [truthy negb].
    destruct (Z.leb_spec (Z.of_nat (List.length (x :: y :: d))) 1)
      as [Hle | Hgt].
    + simpl List.length in Hle. lia.
    + eexists; reflexivity.
Qed.

Lemma get_company_overview_small_envelope_witness :
  (exists w',
      get_company_overview demo_client (PStr "xyz")
        (fresh_world
           (timeouts_then 0 (ok_response (PDict [("Symbol", PStr "XYZ")]))))
      = (Ok (PDict []), w'))
  /\ (exists w',
         get_company_overview demo_client (PStr "msft")
           (fresh_world
              (timeouts_then 1
                 (ok_response
                    (PDict [("Symbol", PStr "MSFT");
                            ("Name", PStr "Microsoft Corporation")]))))
         = (Ok (PDict [("Symbol", PStr "MSFT");
                       ("Name", PStr "Microsoft Corporation")]), w')).
Proof.
  split.
  - destruct (get_company_overview_small_envelope demo_client "xyz"
                (fresh_world
                   (timeouts_then 0
                      (ok_response (PDict [("Symbol", PStr "XYZ")]))))
                0%nat [("Symbol", PStr "XYZ")]) as (H & _).
    + discriminate.
    + simpl. lia.
    + intros i Hi. lia.
    + reflexivity.
    + unfold has_field. simpl. intros [H|[]]. discriminate.
    + unfold has_field. simpl. intros [H|[]]. discriminate.
    + apply H. simpl. lia.
  - destruct (get_company_overview_small_envelope demo_client "msft"
                (fresh_world
                   (timeouts_then 1
                      (ok_response
                         (PDict [("Symbol", PStr "MSFT");
                                 ("Name", PStr "Microsoft Corporation")]))))
                1%nat
                [("Symbol", PStr "MSFT");
                 ("Name", PStr "Microsoft Corporation")]) as (_ & H).
    + discriminate.
    + simpl. lia.
    + intros i Hi. replace i with 0%nat by lia. reflexivity.
    + reflexivity.
    + unfold has_field. simpl. intros [H|[H|[]]]; discriminate.
    + unfold has_field. simpl. intros [H|[H|[]]]; discriminate.
    + apply H. simpl. lia.
Defined.

(** ** What the operations extract from a successful envelope *)

Lemma delivers_after_log self params w d l msg :
  delivers self params w d ->
  exists w2,
    _make_request self params
      (mk_world (net w) (http_calls w) (log_records w ++ [(l, msg)]))
    = (Ok (PDict d), w2).
Proof.
  intros (k & Hk & Ht & Ha & He & Hn).
  destruct (make_request_payload self params
              (mk_world (net w) (http_calls w) (log_records w ++ [(l, msg)]))
              k d Hk Ht Ha He Hn) as (w2 & E & _).
  now exists w2.
Qed.

(** Steps through the first log record and the call of [_make_request]
    of an operation, given what the transport delivers. *)
Ltac deliver H :=
  rewrite bind_log;
  let w2 := fresh "w2" in
  let E := fresh "E" in
  match goal with
  | |- context [try_except (bind (_make_request ?self ?params) _) _
                           (mk_world (net ?w) _ (_ ++ [(?l, ?msg)]))] =>
      destruct (delivers_after_log self params w _ l msg H) as (w2 & E);
      rewrite (try_except_bind_ok _ _ _ _ _ _ E)
  end.

(** Reduces [symbol.upper().strip()] on a string. *)
Ltac normalize_symbol :=
  cbv beta iota; cbn [py_upper]; rewrite bind_ret; cbv beta;
  cbn [py_strip]; rewrite bind_ret; cbv beta.

(** X1.  [get_quote] returns the value under ['Global Quote'] when it is
    there and true, and the empty dict, without raising, when the key is
    absent or its value is false (an empty object, [null]). *)
Theorem get_quote_extracts_the_quote self s w d :
  s <> "" ->
  delivers self (symbol_params "GLOBAL_QUOTE" s []) w d ->
  (forall q,
      dict_lookup d "Global Quote" = Some q -> truthy q = true ->
      exists w', get_quote self (PStr s) w = (Ok q, w'))
  /\ (dict_lookup d "Global Quote" = None
      \/ (exists q, dict_lookup d "Global Quote" = Some q
                    /\ truthy q = false) ->
      exists w', get_quote self (PStr s) w = (Ok (PDict []), w')).
Proof.
  intros Hs Hd. apply not_nonempty_str_false in Hs.
  unfold get_quote. rewrite Hs. normalize_symbol.
  unfold symbol_params in Hd. deliver Hd.
  unfold try_except, bind, py_get, log, ret. split.
  - intros q Hq Ht. rewrite Hq, Ht. eexists; reflexivity.
  - intros [Hq | (q & Hq & Ht)]; rewrite Hq; [|rewrite Ht];
      eexists; reflexivity.
Qed.

(** Proves [delivers] for a sample transport [timeouts_then k _]. *)
Ltac delivers_after k :=
  exists k; repeat apply conj;
  [ simpl; lia
  | let i := fresh "i" in
    let Hi := fresh "Hi" in
    intros i Hi; repeat (destruct i as [|i]; [reflexivity|]); lia
  | reflexivity
  | unfold has_field; simpl; intuition discriminate
  | unfold has_field; simpl; intuition discriminate ].

Lemma get_quote_extracts_the_quote_witness :
  (exists w',
      get_quote demo_client (PStr "aapl")
        (fresh_world (timeouts_then 1 (ok_response (PDict quote_envelope))))
      = (Ok (PDict [("01. symbol", PStr "AAPL");
                    ("05. price", PStr "150.00")]), w'))
  /\ (exists w',
         get_quote demo_client (PStr "aapl")
           (fresh_world
              (timeouts_then 0
                 (ok_response (PDict [("Global Quote", PDict [])]))))
         = (Ok (PDict []), w')).
Proof.
  split.
  - destruct (get_quote_extracts_the_quote demo_client "aapl"
                (fresh_world
                   (timeouts_then 1 (ok_response (PDict quote_envelope))))
                quote_envelope) as (H & _).
    + discriminate.
    + delivers_after 1%nat.
    + apply H; reflexivity.
  - destruct (get_quote_extracts_the_quote demo_client "aapl"
                (fresh_world
                   (timeouts_then 0
                      (ok_response (PDict [("Global Quote", PDict [])]))))
                [("Global Quote", PDict [])]) as (_ & H).
    + discriminate.
    + delivers_after 0%nat.
    + apply H. right. eexists. split; reflexivity.
Defined.

(** X2.  [get_daily_data] returns the whole envelope when its
    ['Time Series (Daily)'] field is there and true, and the empty dict
    otherwise. *)
Theorem get_daily_data_returns_the_envelope self s outputsize w d :
  s <> "" ->
  one_of outputsize outputsizes ->
  delivers self
    (symbol_params "TIME_SERIES_DAILY" s [("outputsize", outputsize)]) w d ->
  (forall series,
      dict_lookup d "Time Series (Daily)" = Some series ->
      truthy series = true ->
      exists w', get_daily_data self (PStr s) outputsize w = (Ok (PDict d), w'))
  /\ (dict_lookup d "Time Series (Daily)" = None
      \/ (exists series, dict_lookup d "Time Series (Daily)" = Some series
                         /\ truthy series = false) ->
      exists w',
        get_daily_data self (PStr s) outputsize w = (Ok (PDict []), w')).
Proof.
  intros Hs Ho Hd. apply not_nonempty_str_false in Hs.
  apply in_strs_true in Ho.
  unfold get_daily_data. rewrite Hs, Ho. cbn [negb]. normalize_symbol.
  unfold symbol_params in Hd. deliver Hd.
  unfold try_except, bind, py_get, log, ret. split.
  - intros q Hq Ht. rewrite Hq, Ht. eexists; reflexivity.
  - intros [Hq | (q & Hq & Ht)]; rewrite Hq; [|rewrite Ht];
      eexists; reflexivity.
Qed.

Lemma get_daily_data_returns_the_envelope_witness :
  (exists w',
      get_daily_data demo_client (PStr "aapl") (PStr "full")
        (fresh_world (timeouts_then 0 (ok_response (PDict daily_envelope))))
      = (Ok (PDict daily_envelope), w'))
  /\ (exists w',
         get_daily_data demo_client (PStr "aapl") (PStr "compact")
           (fresh_world
              (timeouts_then 0
                 (ok_response (PDict [("Meta Data", PDict [])]))))
         = (Ok (PDict []), w')).
Proof.
  split.
  - destruct (get_daily_data_returns_the_envelope demo_client "aapl"
                (PStr "full")
                (fresh_world
                   (timeouts_then 0 (ok_response (PDict daily_envelope))))
                daily_envelope) as (H & _).
    + discriminate.
    + exists "full". split; [reflexivity | simpl; tauto].
    + delivers_after 0%nat.
    + eapply H; reflexivity.
  - destruct (get_daily_data_returns_the_envelope demo_client "aapl"
                (PStr "compact")
                (fresh_world
                   (timeouts_then 0
                      (ok_response (PDict [("Meta Data", PDict [])]))))
                [("Meta Data", PDict [])]) as (_ & H).
    + discriminate.
    + exists "compact". split; [reflexivity | simpl; tauto].
    + delivers_after 0%nat.
    + apply H. left. reflexivity.
Defined.

Lemma find_first_match {A} (f : A -> bool) pre x post :
  Forall (fun y => f y = false) pre -> f x = true ->
  find f (pre ++ x :: post) = Some x.
Proof.
  intros Hpre Hx. induction Hpre as [|y pre Hy _ IH]; simpl.
  - now rewrite Hx.
  - now rewrite Hy.
Qed.

Lemma find_no_match {A} (f : A -> bool) l :
  Forall (fun y => f y = false) l -> find f l = None.
Proof.
  intros H. induction H as [|y l Hy _ IH]; simpl; [reflexivity|].
  now rewrite Hy.
Qed.

Lemma dict_lookup_first_match (f : string -> bool) pre key v post :
  Forall (fun k => f k = false) (dict_keys pre) -> f key = true ->
  dict_lookup (pre ++ (key, v) :: post) key = Some v.
Proof.
  intros Hpre Hk. induction pre as [|[k x] pre IH]; simpl.
  - now rewrite String.eqb_refl.
  - inversion Hpre as [|? ? Hx Hrest]; subst. simpl in Hx.
    destruct (String.eqb_spec k key) as [->|_]; [congruence|].
    now apply IH.
Qed.

(** X3.  [get_intraday_data] looks at one field only: the first, in the
    order of the envelope, whose name contains ['Time Series'].  If its
    value is true the whole envelope is returned; if it is false, or no
    field has such a name, the empty dict is returned, whatever the
    fields after it hold. *)
Theorem get_intraday_data_first_series_decides self s interval outputsize
  w d :
  s <> "" ->
  one_of interval valid_intervals ->
  one_of outputsize outputsizes ->
  delivers self
    (symbol_params "TIME_SERIES_INTRADAY" s
                   [("interval", interval); ("outputsize", outputsize)])
    w d ->
  (forall pre key series post,
      d = pre ++ (key, series) :: post ->
      Forall (fun k => contains_substring "Time Series" k = false)
             (dict_keys pre) ->
      contains_substring "Time Series" key = true ->
      exists w',
        get_intraday_data self (PStr s) interval outputsize w
        = (Ok (if truthy series then PDict d else PDict []), w'))
  /\ (Forall (fun k => contains_substring "Time Series" k = false)
             (dict_keys d) ->
      exists w',
        get_intraday_data self (PStr s) interval outputsize w
        = (Ok (PDict []), w')).
Proof.
  intros Hs Hi Ho Hd. apply not_nonempty_str_false in Hs.
  apply in_strs_true in Hi. apply in_strs_true in Ho.
  unfold get_intraday_data. rewrite Hs, Hi, Ho. cbn [negb].
  normalize_symbol. unfold symbol_params in Hd. deliver Hd.
  unfold try_except, bind, py_keys, find_time_series_key, ret. split.
  - intros pre key series post -> Hpre Hkey.
    unfold dict_keys. rewrite map_app. cbn [map fst].
    rewrite (find_first_match _ _ _ _ Hpre Hkey).
    destruct (String.eqb_spec key "") as [->|_]; [discriminate Hkey|].
    unfold py_get.
    rewrite (dict_lookup_first_match _ _ _ _ _ Hpre Hkey).
    unfold log, ret. cbv beta iota.
    destruct (truthy series); eexists; reflexivity.
  - intros Hnone. rewrite (find_no_match _ _ Hnone).
    unfold log. eexists; reflexivity.
Qed.

Lemma get_intraday_data_first_series_decides_witness :
  (exists w',
      get_intraday_data demo_client (PStr "aapl") (PStr "5min")
        (PStr "compact")
        (fresh_world
           (timeouts_then 0 (ok_response (PDict intraday_envelope))))
      = (Ok (PDict intraday_envelope), w'))
  /\ (exists w',
         get_intraday_data demo_client (PStr "aapl") (PStr "5min")
           (PStr "compact")
           (fresh_world
              (timeouts_then 0
                 (ok_response
                    (PDict (("Time Series (1min)", PDict [])
                              :: intraday_envelope)))))
         = (Ok (PDict []), w')).
Proof.
  assert (Hi : one_of (PStr "5min") valid_intervals).
  { exists "5min". split; [reflexivity | simpl; tauto]. }
  assert (Ho : one_of (PStr "compact") outputsizes).
  { exists "compact". split; [reflexivity | simpl; tauto]. }
  split.
  - destruct (get_intraday_data_first_series_decides demo_client "aapl"
                (PStr "5min") (PStr "compact")
                (fresh_world
                   (timeouts_then 0 (ok_response (PDict intraday_envelope))))
                intraday_envelope) as (H & _);
      [discriminate | exact Hi | exact Ho | delivers_after 0%nat |].
    apply (H [("Meta Data", PDict [("2. Symbol", PStr "AAPL")])]
             "Time Series (5min)"
             (PDict [("2023-01-01 09:30:00",
                      PDict [("4. close", PStr "150.50")])])
             []).
    + reflexivity.
    + repeat constructor.
    + reflexivity.
  - destruct (get_intraday_data_first_series_decides demo_client "aapl"
                (PStr "5min") (PStr "compact")
                (fresh_world
                   (timeouts_then 0
                      (ok_response
                         (PDict (("Time Series (1min)", PDict [])
                                   :: intraday_envelope)))))
                (("Time Series (1min)", PDict []) :: intraday_envelope))
      as (H & _);
      [discriminate | exact Hi | exact Ho | delivers_after 0%nat |].
    apply (H [] "Time Series (1min)" (PDict []) intraday_envelope).
    + reflexivity.
    + constructor.
    + reflexivity.
Defined.

(** X4.  [search_stocks] returns the value under ['bestMatches'] as it
    is (empty or not), and the empty list when the key is absent.  The
    count it logs is taken with [len]: a ['bestMatches'] that is [null], a
    boolean or a number makes the operation raise [TypeError]. *)
Theorem search_stocks_returns_the_matches self s w d :
  s <> "" ->
  delivers self (search_params s) w d ->
  (dict_lookup d "bestMatches" = None ->
   exists w', search_stocks self (PStr s) w = (Ok (PList []), w'))
  /\ (forall v,
         dict_lookup d "bestMatches" = Some v -> is_scalar v = false ->
         exists w', search_stocks self (PStr s) w = (Ok v, w'))
  /\ (forall v,
         dict_lookup d "bestMatches" = Some v -> is_scalar v = true ->
         exists w',
           search_stocks self (PStr s) w
           = (Raise (mk_exn TypeError []), w')).
Proof.
  intros Hs Hd. apply not_nonempty_str_false in Hs.
  unfold search_stocks. rewrite Hs. cbv beta iota.
  cbn [py_strip]. rewrite bind_ret. cbv beta.
  unfold search_params in Hd. deliver Hd.
  unfold try_except, bind, py_get, ret. repeat apply conj.
  - intros Hq. rewrite Hq. eexists; reflexivity.
  - intros v Hq Hv. rewrite Hq.
    destruct v; try discriminate Hv; eexists; reflexivity.
  - intros v Hq Hv. rewrite Hq.
    destruct v; try discriminate Hv; eexists; reflexivity.
Qed.

Lemma search_stocks_returns_the_matches_witness :
  (exists w',
      search_stocks demo_client (PStr " Tesla ")
        (fresh_world (timeouts_then 0 (ok_response (PDict search_envelope))))
      = (Ok (PList [PDict [("1. symbol", PStr "TSLA")]]), w'))
  /\ (exists w',
         search_stocks demo_client (PStr " Tesla ")
           (fresh_world
              (timeouts_then 0
                 (ok_response (PDict [("bestMatches", PNone)]))))
         = (Raise (mk_exn TypeError []), w')).
Proof.
  split.
  - destruct (search_stocks_returns_the_matches demo_client " Tesla "
                (fresh_world
                   (timeouts_then 0 (ok_response (PDict search_envelope))))
                search_envelope) as (_ & H & _).
    + discriminate.
    + delivers_after 0%nat.
    + apply H; reflexivity.
  - destruct (search_stocks_returns_the_matches demo_client " Tesla "
                (fresh_world
                   (timeouts_then 0
                      (ok_response (PDict [("bestMatches", PNone)]))))
                [("bestMatches", PNone)]) as (_ & _ & H).
    + discriminate.
    + delivers_after 0%nat.
    + apply (H PNone); reflexivity.
Defined.

(** X5.  [get_market_status] returns the whole envelope when its
    ['markets'] field is there and true (a non-empty list), and the
    empty dict otherwise. *)
Theorem get_market_status_returns_the_envelope self w d :
  delivers self status_params w d ->
  (field_true d "markets" ->
   exists w', get_market_status self w = (Ok (PDict d), w'))
  /\ (field_false d "markets" ->
      exists w', get_market_status self w = (Ok (PDict []), w')).
Proof.
  intros Hd. unfold get_market_status. unfold status_params in Hd.
  deliver Hd. unfold try_except, bind, py_get, log, ret. split.
  - intros (v & Hq & Ht). rewrite Hq, Ht. eexists; reflexivity.
  - intros [Hq | (v & Hq & Ht)]; rewrite Hq; [|rewrite Ht];
      eexists; reflexivity.
Qed.

Lemma get_market_status_returns_the_envelope_witness :
  (exists w',
      get_market_status demo_client
        (fresh_world (timeouts_then 2 (ok_response (PDict status_envelope))))
      = (Ok (PDict status_envelope), w'))
  /\ (exists w',
         get_market_status demo_client
           (fresh_world
              (timeouts_then 0 (ok_response (PDict [("markets", PList [])]))))
         = (Ok (PDict []), w')).
Proof.
  split.
  - destruct (get_market_status_returns_the_envelope demo_client
                (fresh_world
                   (timeouts_then 2 (ok_response (PDict status_envelope))))
                status_envelope) as (H & _).
    + delivers_after 2%nat.
    + apply H. eexists. split; reflexivity.
  - destruct (get_market_status_returns_the_envelope demo_client
                (fresh_world
                   (timeouts_then 0
                      (ok_response (PDict [("markets", PList [])]))))
                [("markets", PList [])]) as (_ & H).
    + delivers_after 0%nat.
    + apply H. right. eexists. split; reflexivity.
Defined.

(** X6.  [get_top_gainers_losers] returns the whole envelope when at
    least one of ['top_gainers'] and ['top_losers'] is there and true,
    and the empty dict when both are absent or false. *)
Theorem get_top_gainers_losers_returns_the_envelope self w d :
  delivers self movers_params w d ->
  (field_true d "top_gainers" \/ field_true d "top_losers" ->
   exists w', get_top_gainers_losers self w = (Ok (PDict d), w'))
  /\ (field_false d "top_gainers" ->
      field_false d "top_losers" ->
      exists w', get_top_gainers_losers self w = (Ok (PDict []), w')).
Proof.
  intros Hd. unfold get_top_gainers_losers. unfold movers_params in Hd.
  deliver Hd. unfold try_except, bind, py_get, log, ret. split.
  - intros [(v & Hq & Ht) | (v & Hq & Ht)].
    + rewrite Hq, Ht. eexists; reflexivity.
    + rewrite Hq, Ht.
      destruct (dict_lookup d "top_gainers") as [g|];
        [destruct (truthy g)|]; eexists; reflexivity.
  - intros Hg Hl.
    assert (Eg : truthy match dict_lookup d "top_gainers" with
                        | Some x => x
                        | None => PNone
                        end = false).
    { destruct Hg as [-> | (v & -> & Ht)]; [reflexivity | exact Ht]. }
    assert (El : truthy match dict_lookup d "top_losers" with
                        | Some x => x
                        | None => PNone
                        end = false).
    { destruct Hl as [-> | (v & -> & Ht)]; [reflexivity | exact Ht]. }
    rewrite Eg, El. eexists; reflexivity.
Qed.

Lemma get_top_gainers_losers_returns_the_envelope_witness :
  (exists w',
      get_top_gainers_losers demo_client
        (fresh_world (timeouts_then 0 (ok_response (PDict movers_envelope))))
      = (Ok (PDict movers_envelope), w'))
  /\ (exists w',
         get_top_gainers_losers demo_client
           (fresh_world
              (timeouts_then 0
                 (ok_response (PDict [("top_gainers", PList [])]))))
         = (Ok (PDict []), w')).
Proof.
  split.
  - destruct (get_top_gainers_losers_returns_the_envelope demo_client
                (fresh_world
                   (timeouts_then 0 (ok_response (PDict movers_envelope))))
                movers_envelope) as (H & _).
    + delivers_after 0%nat.
    + apply H. right. eexists. split; reflexivity.
  - destruct (get_top_gainers_losers_returns_the_envelope demo_client
                (fresh_world
                   (timeouts_then 0
                      (ok_response (PDict [("top_gainers", PList [])]))))
                [("top_gainers", PList [])]) as (_ & H).
    + delivers_after 0%nat.
    + apply H.
      * right. eexists. split; reflexivity.
      * left. reflexivity.
Defined.

(** ** Failures of the executor, seen from the operations *)

(** The shape all operations share passes on what [_make_request]
    raises. *)
Lemma operation_passes_on self params l msg (post : pyval -> M pyval)
  (prefix : text) w :
  passes_on
    (log l msg ;;
     try_except (data <- _make_request self params ;; post data)
                (fun e => log ERROR (prefix ++ exn_msg e) ;; reraise e))
    self params w.
Proof.
  exists (mk_world (net w) (http_calls w) (log_records w ++ [(l, msg)])).
  split; [split; simpl; auto using app_nil_r|].
  intros e w2 E. rewrite bind_log.
  unfold try_except, bind at 1. rewrite E.
  unfold bind, log, reraise. eexists. split; [reflexivity|].
  split; simpl; auto using app_nil_r.
Qed.

(** X7.  No operation catches and reclassifies: whatever exception the
    request executor raises for the operation's parameters, the operation
    raises that same exception (class and message), after logging it and
    without a further request. *)
Theorem operations_pass_on_executor_errors self w :
  (forall s,
      s <> "" ->
      passes_on (get_quote self (PStr s)) self
                (symbol_params "GLOBAL_QUOTE" s []) w)
  /\ (forall s outputsize,
         s <> "" ->
         one_of outputsize outputsizes ->
         passes_on (get_daily_data self (PStr s) outputsize) self
                   (symbol_params "TIME_SERIES_DAILY" s
                                  [("outputsize", outputsize)]) w)
  /\ (forall s interval outputsize,
         s <> "" ->
         one_of interval valid_intervals ->
         one_of outputsize outputsizes ->
         passes_on (get_intraday_data self (PStr s) interval outputsize) self
                   (symbol_params "TIME_SERIES_INTRADAY" s
                                  [("interval", interval);
                                   ("outputsize", outputsize)]) w)
  /\ (forall s,
         s <> "" ->
         passes_on (search_stocks self (PStr s)) self (search_params s) w)
  /\ (forall s,
         s <> "" ->
         passes_on (get_company_overview self (PStr s)) self
                   (symbol_params "OVERVIEW" s []) w)
  /\ passes_on (get_market_status self) self status_params w
  /\ passes_on (get_top_gainers_losers self) self movers_params w.
Proof.
  repeat apply conj.
  - intros s Hs. apply not_nonempty_str_false in Hs.
    unfold get_quote. rewrite Hs. normalize_symbol.
    apply operation_passes_on.
  - intros s outputsize Hs Ho. apply not_nonempty_str_false in Hs.
    apply in_strs_true in Ho.
    unfold get_daily_data. rewrite Hs, Ho. cbn [negb]. normalize_symbol.
    apply operation_passes_on.
  - intros s interval outputsize Hs Hi Ho.
    apply not_nonempty_str_false in Hs.
    apply in_strs_true in Hi. apply in_strs_true in Ho.
    unfold get_intraday_data. rewrite Hs, Hi, Ho. cbn [negb].
    normalize_symbol. apply operation_passes_on.
  - intros s Hs. apply not_nonempty_str_false in Hs.
    unfold search_stocks. rewrite Hs. cbv beta iota.
    cbn [py_strip]. rewrite bind_ret. cbv beta.
    apply operation_passes_on.
  - intros s Hs. apply not_nonempty_str_false in Hs.
    unfold get_company_overview. rewrite Hs. normalize_symbol.
    apply operation_passes_on.
  - apply operation_passes_on.
  - apply operation_passes_on.
Qed.

Lemma operations_pass_on_executor_errors_witness :
  exists w',
    get_quote demo_client (PStr "aapl")
      (fresh_world (timeouts_then 0 (ok_response (PDict note_envelope))))
    = (Raise (mk_exn RateLimitError
                     [Lit "Alpha Vantage Rate Limit: ";
                      Fmt (PStr "5 calls per minute")]), w').
Proof.
  destruct (operations_pass_on_executor_errors demo_client
              (fresh_world
                 (timeouts_then 0 (ok_response (PDict note_envelope)))))
    as (H & _).
  destruct (H "aapl") as (w1 & [N C] & H1); [discriminate|].
  destruct (make_request_inspects demo_client
              (symbol_params "GLOBAL_QUOTE" "aapl" []) w1 0%nat
              (PDict note_envelope)) as (w1' & E1 & _).
  - simpl. lia.
  - intros i Hi. lia.
  - unfold answers. rewrite N, C. reflexivity.
  - destruct (inspect_note note_envelope (PStr "5 calls per minute") w1'
                eq_refl eq_refl) as (w2 & E2 & _).
    rewrite E2 in E1. destruct (H1 _ _ E1) as (w3 & E3 & _).
    exists w3. exact E3.
Defined.

Lemma retry_loop_request_exception self params todo attempt w o e :
  answers w (mk_request (base_url self) params (timeout self)) 0 o ->
  o = RaisesRequestException e
  \/ (exists body, o = error_status_response e body) ->
  exists w',
    retry_loop self params (S todo) attempt w
    = (Raise (mk_exn APIError [Lit "Request failed: "; Lit e]), w')
    /\ extends w w' [mk_request (base_url self) params (timeout self)].
Proof.
  unfold answers, error_status_response. rewrite Nat.add_0_r.
  intros Ha Ho.
  cbn [retry_loop]. unfold bind at 1. unfold log at 1.
  unfold bind at 1. unfold requests_get at 1.
  cbn [net http_calls log_records]. rewrite Ha.
  destruct Ho as [-> | (body & ->)]; cbn [http_error];
    unfold on_request_exception, bind, log, raise;
    (eexists; split; [reflexivity | split; reflexivity]).
Qed.

(** X8.  A response with an error status, or any failure of the request
    that is neither a timeout nor a connection error, ends the call with
    an [APIError] that is not a [ConnectionError], at the attempt where it
    occurs; the body of an error response is not looked at, even when it
    is a well-formed envelope. *)
Theorem error_status_is_a_terminal_api_error self params w k o e :
  let req := request_of self params in
  (k < Z.to_nat (max_retries self))%nat ->
  timeouts w req k ->
  answers w req k o ->
  o = RaisesRequestException e
  \/ (exists body, o = error_status_response e body) ->
  exists w',
    _make_request self params w
    = (Raise (mk_exn APIError [Lit "Request failed: "; Lit e]), w')
    /\ extends w w' (repeat req (S k)).
Proof.
  intros req Hk Ht Ha Ho.
  destruct (make_request_after_timeouts self params w k Hk Ht)
    as (w1 & E1 & X1).
  fold req in E1, X1.
  destruct (retry_loop_request_exception self (req_params req)
              (Z.to_nat (max_retries self) - S k) (Z.of_nat k) w1 o e)
    as (w2 & E2 & X2).
  - exact (answers_shift _ _ _ _ _ X1 Ha).
  - exact Ho.
  - exists w2. split; [now rewrite E1, E2|].
    rewrite <- repeat_snoc. exact (extends_trans _ _ _ _ _ X1 X2).
Qed.

Lemma error_status_is_a_terminal_api_error_witness :
  exists w',
    _make_request demo_client quote_params
      (fresh_world
         (timeouts_then 1
            (error_status_response "503 Server Error"
                                   (Parsed (PDict quote_envelope)))))
    = (Raise (mk_exn APIError
                     [Lit "Request failed: "; Lit "503 Server Error"]), w')
    /\ List.length (http_calls w') = 2%nat.
Proof.
  destruct (error_status_is_a_terminal_api_error demo_client quote_params
              (fresh_world
                 (timeouts_then 1
                    (error_status_response "503 Server Error"
                                           (Parsed (PDict quote_envelope)))))
              1%nat
              (error_status_response "503 Server Error"
                                     (Parsed (PDict quote_envelope)))
              "503 Server Error") as (w' & E & [_ C]).
  - simpl. lia.
  - intros i Hi. replace i with 0%nat by lia. reflexivity.
  - reflexivity.
  - right. eexists. reflexivity.
  - exists w'. split; [exact E | now rewrite C].
Defined.

(** X9.  Every request [_make_request] issues goes to the client's
    [base_url] with the client's [timeout], and carries the client's API
    key under ['apikey'], also when the caller's parameters had an
    ['apikey'] entry of their own; the other parameters are the
    caller's. *)
Theorem requests_carry_the_api_key self params w :
  let req := request_of self params in
  (exists r w' n,
      _make_request self params w = (r, w')
      /\ http_calls w' = http_calls w ++ repeat req n)
  /\ req_url req = base_url self
  /\ req_timeout req = timeout self
  /\ dict_lookup (req_params req) "apikey" = Some (PStr (api_key self))
  /\ (forall k, k <> "apikey" ->
                dict_lookup (req_params req) k = dict_lookup params k).
Proof.
  intros req. repeat apply conj; try reflexivity.
  - destruct (make_request_attempts self params w)
      as (r & w' & n & E & [_ C] & _).
    now exists r, w', n.
  - apply dict_lookup_set.
  - intros k Hk. apply dict_lookup_set_other. congruence.
Qed.

Lemma requests_carry_the_api_key_witness :
  dict_lookup
    (req_params
       (request_of demo_client
                   [("apikey", PStr "someone else's"); ("symbol", PStr "AAPL")]))
    "apikey"
  = Some (PStr "demo")
  /\ dict_lookup
       (req_params
          (request_of demo_client
                      [("apikey", PStr "someone else's");
                       ("symbol", PStr "AAPL")]))
       "symbol"
     = Some (PStr "AAPL").
Proof.
  destruct (requests_carry_the_api_key demo_client
              [("apikey", PStr "someone else's"); ("symbol", PStr "AAPL")]
              (fresh_world (timeouts_then 0 (ok_response PNone))))
    as (_ & _ & _ & Hkey & Hother).
  split; [exact Hkey|].
  rewrite (Hother "symbol"); [reflexivity | discriminate].
Defined.

(** ** Edge cases of the arguments *)

Lemma all_space_upper s : all_space (upper s) = all_space s.
Proof.
  induction s as [|c s IH]; [reflexivity|].
  pose proof (upper_char_spaces c) as H. cbn [upper all_space].
  destruct (is_space c) eqn:E.
  - rewrite H. simpl. now rewrite E, IH.
  - destruct H as [Hn He].
    destruct (upper_char c) as [|d u]; [contradiction|].
    simpl in Hn |- *. apply andb_prop in Hn. destruct Hn as [Hd _].
    now destruct (is_space d).
Qed.

Lemma all_space_strip s : all_space s = true -> strip s = "".
Proof.
  unfold strip. induction s as [|c s IH]; simpl; [reflexivity|].
  intros H. apply andb_prop in H. destruct H as [Hc Hs].
  rewrite Hc. now apply IH.
Qed.

(** X10.  A symbol made of whitespace only is not rejected: it is not
    the empty string, so validation passes, and the request is issued
    with the empty symbol that stripping leaves. *)
Theorem blank_symbol_is_sent_empty self s w :
  s <> "" ->
  all_space s = true ->
  requests_with (get_quote self (PStr s)) self w
                [("function", PStr "GLOBAL_QUOTE"); ("symbol", PStr "")]
  /\ requests_with (get_company_overview self (PStr s)) self w
                   [("function", PStr "OVERVIEW"); ("symbol", PStr "")].
Proof.
  intros Hs Hb. apply not_nonempty_str_false in Hs.
  assert (E : strip (upper s) = "").
  { apply all_space_strip. now rewrite all_space_upper. }
  split.
  - unfold requests_with, get_quote. rewrite Hs. normalize_symbol.
    rewrite E. apply operation_requests; intros; quiet.
  - unfold requests_with, get_company_overview. rewrite Hs.
    normalize_symbol. rewrite E. apply operation_requests; intros; quiet.
Qed.

Lemma blank_symbol_is_sent_empty_witness :
  requests_with (get_quote demo_client (PStr "   ")) demo_client
    (fresh_world (timeouts_then 0 (ok_response (PDict quote_envelope))))
    [("function", PStr "GLOBAL_QUOTE"); ("symbol", PStr "")].
Proof.
  apply (blank_symbol_is_sent_empty demo_client "   "
           (fresh_world
              (timeouts_then 0 (ok_response (PDict quote_envelope)))));
    [discriminate | reflexivity].
Defined.

(** X11.  [search_stocks] sends its keywords stripped of surrounding
    whitespace and in the case they were given (they are not
    upper-cased); [get_market_status] and [get_top_gainers_losers] send
    the function name alone.  Each issues one and the same request, at
    most [max_retries] times. *)
Theorem requests_of_the_other_operations self w :
  (forall s,
      s <> "" ->
      requests_with (search_stocks self (PStr s)) self w
                    [("function", PStr "SYMBOL_SEARCH");
                     ("keywords", PStr (strip s))])
  /\ requests_with (get_market_status self) self w
                   [("function", PStr "MARKET_STATUS")]
  /\ requests_with (get_top_gainers_losers self) self w
                   [("function", PStr "TOP_GAINERS_LOSERS")].
Proof.
  repeat apply conj.
  - intros s Hs. apply not_nonempty_str_false in Hs.
    unfold requests_with, search_stocks. rewrite Hs.
    cbv beta iota. cbn [py_strip]. rewrite bind_ret. cbv beta.
    apply operation_requests; intros; quiet.
  - unfold requests_with, get_market_status.
    apply operation_requests; intros; quiet.
  - unfold requests_with, get_top_gainers_losers.
    apply operation_requests; intros; quiet.
Qed.

Lemma requests_of_the_other_operations_witness :
  requests_with (search_stocks demo_client (PStr "  Tesla inc ")) demo_client
    (fresh_world (timeouts_then 0 (ok_response (PDict search_envelope))))
    [("function", PStr "SYMBOL_SEARCH"); ("keywords", PStr "Tesla inc")].
Proof.
  destruct (requests_of_the_other_operations demo_client
              (fresh_world
                 (timeouts_then 0 (ok_response (PDict search_envelope)))))
    as (H & _).
  apply (H "  Tesla inc "). discriminate.
Defined.

(** ** The configuration provider *)

Module ConfigFacts.
Import Config.

Lemma merged_none v : merged None v = v.
Proof. destruct v; reflexivity. Qed.

Lemma merged_not_dict old v :
  (forall o, v <> PDict o) -> merged old v = v.
Proof. intros H. destruct v; try reflexivity. now destruct (H kvs). Qed.

Lemma merged_onto_not_dict old v :
  (forall b, old <> Some (PDict b)) -> merged old v = v.
Proof.
  intros H. destruct v; try reflexivity.
  destruct old as [[]|]; try reflexivity. now destruct (H kvs0).
Qed.

(** The recursive call of [_deep_merge]. *)
Lemma merged_dicts base override :
  merged (Some (PDict base)) (PDict override)
  = PDict (_deep_merge base override).
Proof.
  unfold _deep_merge. cbn [merged]. f_equal. revert base.
  induction override as [|[key value] override IH]; intros base;
    [reflexivity|].
  cbn [fold_left fst snd]. apply IH.
Qed.

Lemma deep_merge_cons base key value override :
  _deep_merge base ((key, value) :: override)
  = _deep_merge (dict_set base key (merged (dict_lookup base key) value))
                override.
Proof. reflexivity. Qed.

Lemma lookup_not_in_keys (d : dict) k :
  ~ In k (dict_keys d) -> dict_lookup d k = None.
Proof. apply no_field_lookup. Qed.

(** What [_deep_merge] leaves under each key. *)
Lemma deep_merge_lookup override : forall base k,
  NoDup (dict_keys override) ->
  dict_lookup (_deep_merge base override) k
  = match dict_lookup override k with
    | Some v => Some (merged (dict_lookup base k) v)
    | None => dict_lookup base k
    end.
Proof.
  induction override as [|[key value] override IH]; intros base k Hnd;
    [reflexivity|].
  rewrite deep_merge_cons. cbn [dict_keys map fst] in Hnd.
  inversion Hnd as [|? ? Hnotin Hnd']; subst.
  rewrite (IH _ _ Hnd'). cbn [dict_lookup].
  destruct (String.eqb_spec key k) as [->|Hne].
  - rewrite (lookup_not_in_keys _ _ Hnotin). apply dict_lookup_set.
  - now rewrite (dict_lookup_set_other _ _ _ _ Hne).
Qed.

(** X12.  [_deep_merge], key by key, for an [override] that is a dict
    (its keys are distinct): a key that [override] does not have keeps
    the value [base] gives it; a key that [override] has takes the value
    of [override], unless both values are dicts, which are merged in the
    same way. *)
Theorem deep_merge_override_wins base override k :
  NoDup (dict_keys override) ->
  (~ has_field override k ->
   dict_lookup (_deep_merge base override) k = dict_lookup base k)
  /\ (forall v,
         dict_lookup override k = Some v ->
         (forall o, v <> PDict o)
         \/ (forall b, dict_lookup base k <> Some (PDict b)) ->
         dict_lookup (_deep_merge base override) k = Some v)
  /\ (forall b o,
         dict_lookup base k = Some (PDict b) ->
         dict_lookup override k = Some (PDict o) ->
         dict_lookup (_deep_merge base override) k
         = Some (PDict (_deep_merge b o))).
Proof.
  intros Hnd. rewrite (deep_merge_lookup _ _ _ Hnd). repeat apply conj.
  - intros Hk. now rewrite (no_field_lookup _ _ Hk).
  - intros v -> [Hv | Hb]; f_equal.
    + now apply merged_not_dict.
    + now apply merged_onto_not_dict.
  - intros b o -> ->. f_equal. apply merged_dicts.
Qed.

Lemma deep_merge_override_wins_witness :
  dict_lookup
    (_deep_merge sample_file
                 [("api", PDict [("timeout", PInt 60)]); ("debug", PNone)])
    "debug"
  = Some PNone
  /\ dict_lookup
       (_deep_merge sample_file
                    [("api", PDict [("timeout", PInt 60)]); ("debug", PNone)])
       "api"
     = Some (PDict [("timeout", PInt 60); ("key", PStr "demo")]).
Proof.
  assert (Hnd : NoDup (dict_keys [("api", PDict [("timeout", PInt 60)]);
                                  ("debug", PNone)])).
  { repeat constructor; simpl; intuition discriminate. }
  split.
  - destruct (deep_merge_override_wins sample_file
                [("api", PDict [("timeout", PInt 60)]); ("debug", PNone)]
                "debug" Hnd) as (_ & H & _).
    apply H; [reflexivity|]. left. discriminate.
  - destruct (deep_merge_override_wins sample_file
                [("api", PDict [("timeout", PInt 60)]); ("debug", PNone)]
                "api" Hnd) as (_ & _ & H).
    apply (H [("timeout", PInt 30); ("key", PStr "demo")]
             [("timeout", PInt 60)]); reflexivity.
Defined.

Lemma dict_set_fresh (d : dict) k v :
  ~ In k (dict_keys d) -> dict_set d k v = d ++ [(k, v)].
Proof.
  induction d as [|[k' v'] d IH]; simpl; [reflexivity|].
  intros H. destruct (String.eqb_spec k' k) as [->|_].
  - exfalso. apply H. now left.
  - f_equal. apply IH. intros Hin. apply H. now right.
Qed.

Lemma deep_merge_fresh override : forall base,
  NoDup (dict_keys override) ->
  (forall k, In k (dict_keys override) -> ~ In k (dict_keys base)) ->
  _deep_merge base override = base ++ override.
Proof.
  induction override as [|[key value] override IH]; intros base Hnd Hdis.
  - now rewrite app_nil_r.
  - rewrite deep_merge_cons. cbn [dict_keys map fst] in Hnd, Hdis.
    inversion Hnd as [|? ? Hnotin Hnd']; subst.
    assert (Hkey : ~ In key (dict_keys base)) by (apply Hdis; now left).
    rewrite (lookup_not_in_keys _ _ Hkey), merged_none,
      (dict_set_fresh _ _ _ Hkey).
    rewrite IH; [now rewrite <- app_assoc | exact Hnd' |].
    intros k Hk. unfold dict_keys. rewrite map_app, in_app_iff.
    intros [Hb | [<- | []]].
    + apply (Hdis k); [now right | exact Hb].
    + contradiction.
Qed.

(** X13.  The empty dict is neutral for [_deep_merge] on both sides:
    merging nothing into [d] gives [d], and merging a dict [d] into the
    empty configuration (what [load_config] does with the file) gives
    [d], nested values and order included. *)
Theorem deep_merge_with_empty d :
  _deep_merge d [] = d
  /\ (NoDup (dict_keys d) -> _deep_merge [] d = d).
Proof.
  split; [reflexivity|].
  intros Hnd. apply (deep_merge_fresh d [] Hnd). intros k _ [].
Qed.

Lemma deep_merge_with_empty_witness : _deep_merge [] sample_file = sample_file.
Proof.
  apply (deep_merge_with_empty sample_file).
  repeat constructor; simpl; intuition discriminate.
Defined.
(** *** [get] and [_set_nested_value] *)

Lemma walk_raises value keys e :
  walk value keys = Raises e -> e = KeyError \/ e = TypeError.
Proof.
  revert value. induction keys as [|key keys IH]; intros value; simpl;
    [discriminate|].
  unfold subscript. destruct value; try (intros [= <-]; now right).
  destruct (dict_lookup kvs key) as [v|]; [apply IH|].
  intros [= <-]. now left.
Qed.

(** X14.  [get] never raises: it returns the value the path leads to,
    and [default] both when a key of the path is missing and when the
    path runs into a value that is not a dict (a string, a number, a
    list, [None]) before its end. *)
Theorem get_returns_value_or_default config path default :
  (exists v, get config path default = Returns v)
  /\ (forall v,
         walk (PDict config) (split "." path) = Returns v ->
         get config path default = Returns v)
  /\ (forall prefix key rest d,
         split "." path = prefix ++ key :: rest ->
         walk (PDict config) prefix = Returns (PDict d) ->
         ~ has_field d key ->
         get config path default = Returns default)
  /\ (forall prefix key rest v,
         split "." path = prefix ++ key :: rest ->
         walk (PDict config) prefix = Returns v ->
         (forall d, v <> PDict d) ->
         get config path default = Returns default).
Proof.
  assert (Happ : forall prefix value keys v,
             walk value prefix = Returns v ->
             walk value (prefix ++ keys) = walk v keys).
  { induction prefix as [|k prefix IH]; intros value keys v; simpl.
    - now intros [= ->].
    - destruct (subscript value k); [apply IH | discriminate]. }
  unfold get. repeat apply conj.
  - destruct (walk (PDict config) (split "." path)) as [v|e] eqn:E;
      [now exists v|].
    destruct (walk_raises _ _ _ E) as [-> | ->]; now exists default.
  - now intros v ->.
  - intros prefix key rest d -> Hw Hk.
    rewrite (Happ _ _ _ _ Hw). simpl.
    now rewrite (no_field_lookup _ _ Hk).
  - intros prefix key rest v -> Hw Hv.
    rewrite (Happ _ _ _ _ Hw). simpl.
    destruct v; try reflexivity. now destruct (Hv kvs).
Qed.

Lemma get_returns_value_or_default_witness :
  get sample_file "api.timeout" PNone = Returns (PInt 30)
  /\ get sample_file "api.retries" (PInt 3) = Returns (PInt 3)
  /\ get sample_file "debug.level" (PInt 0) = Returns (PInt 0).
Proof.
  repeat apply conj.
  - destruct (get_returns_value_or_default sample_file "api.timeout" PNone)
      as (_ & H & _).
    apply H. reflexivity.
  - destruct (get_returns_value_or_default sample_file "api.retries" (PInt 3))
      as (_ & _ & H & _).
    apply (H ["api"] "retries" []
             [("timeout", PInt 30); ("key", PStr "demo")]);
      [reflexivity | reflexivity |].
    unfold has_field. simpl. intuition discriminate.
  - destruct (get_returns_value_or_default sample_file "debug.level" (PInt 0))
      as (_ & _ & _ & H).
    apply (H ["debug"] "level" [] (PBool false));
      [reflexivity | reflexivity | discriminate].
Defined.

Lemma split_no_sep sep s : has_char sep s = false -> split sep s = [s].
Proof.
  induction s as [|c s IH]; simpl; [reflexivity|].
  intros H. apply orb_false_elim in H. destruct H as [Hc Hs].
  rewrite Hc, (IH Hs). reflexivity.
Qed.

Lemma split_app_sep sep x y :
  has_char sep x = false ->
  split sep (x ++ String sep y) = x :: split sep y.
Proof.
  induction x as [|c x IH]; simpl.
  - intros _. now rewrite Ascii.eqb_refl.
  - intros H. apply orb_false_elim in H. destruct H as [Hc Hx].
    rewrite Hc, (IH Hx). reflexivity.
Qed.

(** [split] undoes [join] on pieces that do not contain the separator. *)
Lemma split_join sep pieces :
  pieces <> [] -> free_of sep pieces ->
  split sep (join sep pieces) = pieces.
Proof.
  intros Hne H. induction H as [|piece pieces Hp Hrest IH];
    [contradiction|].
  destruct pieces as [|piece' pieces].
  - simpl. now apply split_no_sep.
  - change (join sep (piece :: piece' :: pieces))
      with (piece ++ String sep (join sep (piece' :: pieces)))%string.
    rewrite (split_app_sep _ _ _ Hp). f_equal. apply IH. discriminate.
Qed.

Lemma walk_set_path path : forall d key value d',
  set_path d key path value = Returns d' ->
  walk (PDict d') (key :: path) = Returns value.
Proof.
  induction path as [|key' path IH]; intros d key value d'.
  - simpl. intros [= <-]. now rewrite dict_lookup_set.
  - cbn [set_path].
    assert (Hinner : forall sub,
               match set_path sub key' path value with
               | Returns sub' => Returns (dict_set d key (PDict sub'))
               | Raises e => Raises e
               end = Returns d' ->
               walk (PDict d') (key :: key' :: path) = Returns value).
    { intros sub H.
      destruct (set_path sub key' path value) as [sub'|e] eqn:E;
        [|discriminate].
      injection H as <-.
      change (walk (PDict (dict_set d key (PDict sub'))) (key :: key' :: path))
        with (match subscript (PDict (dict_set d key (PDict sub'))) key with
              | Returns v => walk v (key' :: path)
              | Raises e => Raises e
              end).
      cbn [subscript]. rewrite dict_lookup_set. exact (IH _ _ _ _ E). }
    destruct (dict_lookup d key) as [[]|]; try apply Hinner;
      destruct path; discriminate.
Qed.

(** X15.  What [_set_nested_value] stores, [get] finds: after a
    successful store under a path whose keys contain no dot, [get] with
    the keys joined by dots returns the stored value, not the default. *)
Theorem get_after_set_nested_value config keys value config' default :
  free_of "." keys ->
  _set_nested_value config keys value = Returns config' ->
  get config' (join "." keys) default = Returns value.
Proof.
  intros Hfree Hset. destruct keys as [|key path]; [discriminate|].
  assert (Hne : key :: path <> []) by discriminate.
  unfold get. rewrite (split_join _ _ Hne Hfree).
  unfold _set_nested_value in Hset.
  now rewrite (walk_set_path _ _ _ _ _ Hset).
Qed.

Lemma get_after_set_nested_value_witness :
  exists config',
    _set_nested_value sample_file ["api"; "retries"] (PStr "5")
    = Returns config'
    /\ get config' "api.retries" PNone = Returns (PStr "5").
Proof.
  eexists. split; [reflexivity|].
  apply (get_after_set_nested_value sample_file ["api"; "retries"]
           (PStr "5") _ PNone).
  - repeat constructor.
  - reflexivity.
Defined.
(** *** [_override_from_env] and [load_config] *)

Lemma lower_char_idem c : lower_char (lower_char c) = lower_char c.
Proof. destruct c as [[] [] [] [] [] [] [] []]; reflexivity. Qed.

Lemma lower_char_underscore c :
  Ascii.eqb (lower_char c) "_" = Ascii.eqb c "_".
Proof. destruct c as [[] [] [] [] [] [] [] []]; reflexivity. Qed.

Lemma lower_char_dot c : Ascii.eqb (lower_char c) "." = Ascii.eqb c ".".
Proof. destruct c as [[] [] [] [] [] [] [] []]; reflexivity. Qed.

Lemma lower_idem s : lower (lower s) = lower s.
Proof.
  induction s as [|c s IH]; simpl; [reflexivity|].
  now rewrite lower_char_idem, IH.
Qed.

Lemma lower_app x y : lower (x ++ y) = (lower x ++ lower y)%string.
Proof. induction x as [|c x IH]; simpl; [reflexivity | now rewrite IH]. Qed.

Lemma has_underscore_lower s : has_char "_" (lower s) = has_char "_" s.
Proof.
  induction s as [|c s IH]; simpl; [reflexivity|].
  now rewrite lower_char_underscore, IH.
Qed.

Lemma has_dot_lower s : has_char "." (lower s) = has_char "." s.
Proof.
  induction s as [|c s IH]; simpl; [reflexivity|].
  now rewrite lower_char_dot, IH.
Qed.

Lemma has_char_drop c n : forall s,
  has_char c s = false -> has_char c (drop n s) = false.
Proof.
  induction n as [|n IH]; intros [|a s]; simpl; auto.
  intros H. apply orb_false_elim in H. now apply IH.
Qed.

(** The pieces [split] cuts contain what the string contains. *)
Lemma split_pieces_free c sep s :
  has_char c s = false -> free_of c (split sep s).
Proof.
  unfold free_of. induction s as [|a s IH]; simpl.
  - intros _. now repeat constructor.
  - intros H. apply orb_false_elim in H. destruct H as [Ha Hs].
    specialize (IH Hs). destruct (Ascii.eqb a sep).
    + now constructor.
    + destruct (split sep s) as [|piece pieces].
      * repeat constructor. simpl. now rewrite Ha.
      * inversion IH as [|? ? Hp Hrest]; subst.
        constructor; [|exact Hrest]. simpl. now rewrite Ha, Hp.
Qed.





Lemma split_two a b :
  has_char "_" a = false -> has_char "_" b = false ->
  split "_" (lower (a ++ "_" ++ b)) = [lower a; lower b].
Proof.
  intros Ha Hb. rewrite lower_app.
  change (lower ("_" ++ b)) with (String "_" (lower b)).
  rewrite split_app_sep by now rewrite has_underscore_lower.
  f_equal. apply split_no_sep. now rewrite has_underscore_lower.
Qed.

(** X17.  Two variables of which one names a prefix of the other's path
    conflict, and the outcome depends on the order in which [os.environ]
    gives them.  [APP_A] before [APP_A_B]: the string stored for the
    first is in the way of the second, and [TypeError] is raised.
    [APP_A_B] before [APP_A]: no error, and the string of [APP_A]
    replaces the dict that held the value of [APP_A_B]. *)
Theorem conflicting_variables_depend_on_order config a b v1 v2 :
  has_char "_" a = false ->
  has_char "_" b = false ->
  _override_from_env config
    [(("APP_" ++ a)%string, v1); (("APP_" ++ a ++ "_" ++ b)%string, v2)]
  = Raises TypeError
  /\ (forall config1,
         _set_nested_value config [lower a; lower b] (PStr v2)
         = Returns config1 ->
         _override_from_env config
           [(("APP_" ++ a ++ "_" ++ b)%string, v2);
            (("APP_" ++ a)%string, v1)]
         = Returns (dict_set config1 (lower a) (PStr v1))).
Proof.
  intros Ha Hb.
  assert (E1 : split "_" (lower a) = [lower a]).
  { apply split_no_sep. now rewrite has_underscore_lower. }
  pose proof (split_two a b Ha Hb) as E2.
  assert (Hp : forall s, prefix "APP_" ("APP_" ++ s) = true)
    by (intros s; cbv; now destruct s).
  assert (Hd : forall s, drop 4 ("APP_" ++ s) = s) by reflexivity.
  split.
  - cbn [_override_from_env]. rewrite !Hp, !Hd, E1.
    cbn [_set_nested_value set_path].
    rewrite E2. cbn [_set_nested_value set_path].
    now rewrite dict_lookup_set.
  - intros config1 H.
    cbn [_override_from_env]. rewrite !Hp, !Hd, E2, H, E1. reflexivity.
Qed.

Lemma conflicting_variables_depend_on_order_witness :
  _override_from_env [] [("APP_DB", "sqlite"); ("APP_DB_HOST", "localhost")]
  = Raises TypeError
  /\ _override_from_env []
       [("APP_DB_HOST", "localhost"); ("APP_DB", "sqlite")]
     = Returns [("db", PStr "sqlite")].
Proof.
  destruct (conflicting_variables_depend_on_order [] "DB" "HOST"
              "sqlite" "localhost" eq_refl eq_refl) as (H1 & H2).
  split; [exact H1|].
  exact (H2 [("db", PDict [("host", PStr "localhost")])] eq_refl).
Defined.

(** X18.  A variable [APP_...] wins over the file: whatever the file
    holds under the path the variable names, after [load_config] has
    succeeded [get] returns the value of the variable under that path,
    as the string it is in the environment (a number in the file is
    replaced by a string). *)
Theorem environment_overrides_file file var value config default :
  prefix "APP_" var = true ->
  has_char "." var = false ->
  load_config (Some (inr (PDict file))) [(var, value)] = Returns config ->
  get config (join "." (split "_" (lower (drop 4 var)))) default
  = Returns (PStr value).
Proof.
  intros Hp Hdot H. unfold load_config in H.
  cbn [_override_from_env] in H. rewrite Hp in H.
  assert (Hfree : free_of "." (split "_" (lower (drop 4 var)))).
  { apply split_pieces_free. rewrite has_dot_lower.
    now apply has_char_drop. }
  destruct (split "_" (lower (drop 4 var))) as [|key path] eqn:Es.
  - discriminate H.
  - cbn [_set_nested_value] in H.
    destruct (set_path (_deep_merge [] file) key path (PStr value))
      as [c|e] eqn:E; [|discriminate H].
    injection H as <-.
    assert (Hne : key :: path <> []) by discriminate.
    unfold get. rewrite (split_join _ _ Hne Hfree).
    now rewrite (walk_set_path _ _ _ _ _ E).
Qed.

Lemma environment_overrides_file_witness :
  exists config,
    load_config (Some (inr (PDict sample_file))) [("APP_API_TIMEOUT", "60")]
    = Returns config
    /\ get config "api.timeout" PNone = Returns (PStr "60")
    /\ get config "api.key" PNone = Returns (PStr "demo").
Proof.
  eexists. split; [reflexivity|]. split; [|reflexivity].
  apply (environment_overrides_file sample_file "APP_API_TIMEOUT" "60" _ PNone);
    reflexivity.
Defined.

End ConfigFacts.
